(** * Prof. Mackson daily research cycle: shallow embedding and checked properties

    The development follows [run_prof_mackson.py]:

    - Python text is a list of characters; a character is a code point of the
      range 0..255 (Rocq's [ascii]), with Python's classification of these
      code points ([str.isspace], [str.isalnum]) tabulated;
    - a Python object reaching the program is a JSON value ([json]);
    - [json.loads], [str.format], the default formatting of non-text objects
      and the composition of an [EmailMessage] are library code: they are
      parameters of the embedding, and reference versions are given to run
      the embedding on concrete replies;
    - an exception is of class [Exception] or not ([KeyboardInterrupt],
      [SystemExit]); the handlers of the program catch the first kind only;
    - effects (chat session, clock, file system, SMTP, console) are threaded
      through a state-and-exception monad over a [World]. *)

From Stdlib Require Import List Ascii String ZArith Bool Arith Lia.
From Stdlib Require Import DecimalString.
Import ListNotations.

Set Warnings "-register-all".

(* ================================================================= *)
(** ** Text *)

Module PyStr.

Definition str := list ascii.

(** A text literal. *)
Definition lit (s : string) : str := list_ascii_of_string s.

(** A text literal in which every apostrophe stands for a double quote;
    it keeps JSON examples readable. *)
Definition q (s : string) : str :=
  map (fun c => if Ascii.eqb c "'"%char then "034"%char else c)
      (list_ascii_of_string s).

Definition code (c : ascii) : nat := nat_of_ascii c.

Definition in_range (lo hi : nat) (c : ascii) : bool :=
  (lo <=? code c) && (code c <=? hi).

(** [str.isspace] on one character, for the code points 0..255:
    TAB..CR, FS..US, SPACE, NEL and NBSP. *)
Definition isspace (c : ascii) : bool :=
  in_range 9 13 c || in_range 28 32 c
  || (code c =? 133) || (code c =? 160).

(** [str.isalnum] on one character, for the code points 0..255. *)
Definition isalnum (c : ascii) : bool :=
  in_range 48 57 c || in_range 65 90 c || in_range 97 122 c
  || (code c =? 170) || (code c =? 178) || (code c =? 179)
  || (code c =? 181) || (code c =? 185) || (code c =? 186)
  || in_range 188 190 c
  || in_range 192 214 c || in_range 216 246 c || in_range 248 255 c.

Fixpoint dropwhile (p : ascii -> bool) (s : str) : str :=
  match s with
  | [] => []
  | c :: s' => if p c then dropwhile p s' else s
  end.

Definition lstrip_by (p : ascii -> bool) (s : str) : str := dropwhile p s.
Definition rstrip_by (p : ascii -> bool) (s : str) : str :=
  rev (dropwhile p (rev s)).
Definition strip_by (p : ascii -> bool) (s : str) : str :=
  rstrip_by p (lstrip_by p s).

(** [s.strip()] *)
Definition strip (s : str) : str := strip_by isspace s.

Definition mem (c : ascii) (chars : str) : bool :=
  existsb (Ascii.eqb c) chars.

(** [s.strip(chars)] *)
Definition strip_chars (chars : str) (s : str) : str :=
  strip_by (fun c => mem c chars) s.

(** [s.startswith(p)] *)
Fixpoint startswith (p s : str) : bool :=
  match p, s with
  | [], _ => true
  | _ :: _, [] => false
  | a :: p', b :: s' => Ascii.eqb a b && startswith p' s'
  end.

(** [s.endswith(p)] *)
Definition endswith (p s : str) : bool := startswith (rev p) (rev s).

(** [s.find(c)] for a one-character needle; [None] stands for [-1]. *)
Fixpoint find (c : ascii) (s : str) : option nat :=
  match s with
  | [] => None
  | a :: s' => if Ascii.eqb a c then Some 0 else option_map S (find c s')
  end.

(** [s[i:j]] for [0 <= i], [0 <= j]. *)
Definition slice (s : str) (i j : nat) : str := firstn (j - i) (skipn i s).

(** [s.replace(a, b)] for one-character [a] and [b]. *)
Definition replace (a b : ascii) (s : str) : str :=
  map (fun c => if Ascii.eqb c a then b else c) s.

Definition str_eqb (a b : str) : bool :=
  if list_eq_dec ascii_dec a b then true else false.

End PyStr.
Import PyStr.

(* ================================================================= *)
(** ** Python objects and exceptions *)

(** A value produced by [json.loads]: [None], [bool], [int], [float] (kept as
    its literal), [str], [list], and [dict] as its items in insertion order. *)
Inductive json : Type :=
| JNull
| JBool (b : bool)
| JInt (n : Z)
| JFloat (literal : str)
| JString (s : str)
| JArray (items : list json)
| JObject (members : list (str * json)).

(** The exceptions the program can meet.  [EnvError] stands for an exception
    of class [Exception] raised by the surroundings ([OSError], an SMTP or
    transport error), [Interrupt] for one outside that class
    ([KeyboardInterrupt], [SystemExit]). *)
Inductive exn : Type :=
| ValueError (msg : str)
| KeyError (key : str)
| TypeError (msg : str)
| AttributeError (msg : str)
| EnvError (kind msg : str)
| Interrupt (kind msg : str).

(** [isinstance(e, Exception)] *)
Definition is_exception (e : exn) : bool :=
  match e with
  | Interrupt _ _ => false
  | _ => true
  end.

Inductive result (A : Type) : Type :=
| Ok (a : A)
| Raise (e : exn).
Arguments Ok {A} a.
Arguments Raise {A} e.

Fixpoint assoc (k : str) (m : list (str * json)) : option json :=
  match m with
  | [] => None
  | (k', v) :: m' => if str_eqb k k' then Some v else assoc k m'
  end.

(* ================================================================= *)
(** ** The JSON extractor *)

Section Extractor.

(** [json.loads]: [None] when it raises. *)
Variable json_loads : str -> option json.

Definition FENCE : str := lit "```".

(** Lines 57-62: the wrappers stripped before parsing. *)
Definition clean (text : str) : str :=
  let cleaned := strip text in
  if startswith FENCE cleaned && endswith FENCE cleaned then
    let cleaned := strip (strip_chars (lit "`") cleaned) in
    if startswith (lit "json") cleaned then strip (skipn 4 cleaned)
    else cleaned
  else cleaned.

(** Lines 75-87: the loop over [range(start_idx, len(cleaned))]; [rest] is
    [cleaned[idx:]].  [Some v]: the loop returned [v]; [None]: the loop was
    left by [break] or ran to its end. *)
Fixpoint brace_loop (cleaned : str) (start_idx idx : nat) (rest : str)
    (depth : Z) : option json :=
  match rest with
  | [] => None
  | ch :: rest' =>
      if Ascii.eqb ch "{"%char then
        brace_loop cleaned start_idx (S idx) rest' (depth + 1)
      else if Ascii.eqb ch "}"%char then
        let depth := (depth - 1)%Z in
        if (depth =? 0)%Z then
          let candidate := slice cleaned start_idx (idx + 1) in
          match json_loads candidate with
          | Some v => Some v
          | None => None
          end
        else brace_loop cleaned start_idx (S idx) rest' depth
      else brace_loop cleaned start_idx (S idx) rest' depth
  end.

Definition NO_JSON : exn :=
  ValueError (lit "No JSON object found in response.").
Definition UNPARSABLE : exn :=
  ValueError (lit "Unable to parse JSON from response text.").

Definition _extract_json (text : str) : result json :=
  let cleaned := clean text in
  match json_loads cleaned with
  | Some v => Ok v
  | None =>
      match find "{"%char cleaned with
      | None => Raise NO_JSON
      | Some start_idx =>
          match brace_loop cleaned start_idx start_idx
                           (skipn start_idx cleaned) 0 with
          | Some v => Ok v
          | None => Raise UNPARSABLE
          end
      end
  end.

End Extractor.

(* ================================================================= *)
(** ** A reference JSON reader

    [json.loads] is library code.  The reader below follows the grammar the
    library's scanner accepts, on text of the code points 0..255 (a [\u]
    escape above 255 is refused), and is used to run the embedding on
    concrete replies. *)

Module JsonReader.

Definition is_ws (c : ascii) : bool :=
  (code c =? 32) || (code c =? 9) || (code c =? 10) || (code c =? 13).
Definition skip_ws (s : str) : str := dropwhile is_ws s.
Definition is_digit (c : ascii) : bool := in_range 48 57 c.

Fixpoint span (p : ascii -> bool) (s : str) : str * str :=
  match s with
  | [] => ([], [])
  | c :: s' => if p c then let (a, b) := span p s' in (c :: a, b) else ([], s)
  end.

Definition hex_val (c : ascii) : option nat :=
  if in_range 48 57 c then Some (code c - 48)
  else if in_range 97 102 c then Some (code c - 87)
  else if in_range 65 70 c then Some (code c - 55)
  else None.

Definition hex4 (a b c d : ascii) : option nat :=
  match hex_val a, hex_val b, hex_val c, hex_val d with
  | Some x, Some y, Some z, Some w => Some (((x * 16 + y) * 16 + z) * 16 + w)
  | _, _, _, _ => None
  end.

Definition escape (e : ascii) : option ascii :=
  if Ascii.eqb e "034" then Some "034"%char
  else if Ascii.eqb e "\" then Some "\"%char
  else if Ascii.eqb e "/" then Some "/"%char
  else if Ascii.eqb e "b" then Some "008"%char
  else if Ascii.eqb e "f" then Some "012"%char
  else if Ascii.eqb e "n" then Some "010"%char
  else if Ascii.eqb e "r" then Some "013"%char
  else if Ascii.eqb e "t" then Some "009"%char
  else None.

Definition push (c : ascii) (r : option (str * str)) : option (str * str) :=
  match r with
  | Some (body, rest) => Some (c :: body, rest)
  | None => None
  end.

(** The text after an opening quote, up to the closing one. *)
Fixpoint read_string (s : str) : option (str * str) :=
  match s with
  | [] => None
  | c :: s' =>
      if Ascii.eqb c "034" then Some ([], s')
      else if Ascii.eqb c "\" then
        match s' with
        | [] => None
        | e :: s'' =>
            match escape e with
            | Some x => push x (read_string s'')
            | None =>
                if Ascii.eqb e "u" then
                  match s'' with
                  | h1 :: h2 :: h3 :: h4 :: s3 =>
                      match hex4 h1 h2 h3 h4 with
                      | Some n =>
                          if n <=? 255 then
                            push (ascii_of_nat n) (read_string s3)
                          else None
                      | None => None
                      end
                  | _ => None
                  end
                else None
            end
        end
      else if code c <? 32 then None
      else push c (read_string s')
  end.

Definition digits_value (ds : str) : Z :=
  fold_left (fun acc d => (acc * 10 + Z.of_nat (code d - 48))%Z) ds 0%Z.

(** One digit or more. *)
Definition digits1 (s : str) : option (str * str) :=
  match span is_digit s with
  | ([], _) => None
  | (d :: ds, r) => Some (d :: ds, r)
  end.

(** The integer part: a lone zero, or digits. *)
Definition int_part (s : str) : option (str * str) :=
  match s with
  | c :: r => if Ascii.eqb c "0" then Some ([c], r) else digits1 s
  | [] => None
  end.

(** The optional fraction: a dot and digits. *)
Definition frac_part (s : str) : str * str :=
  match s with
  | c :: r =>
      if Ascii.eqb c "." then
        match digits1 r with
        | Some (ds, r') => (c :: ds, r')
        | None => ([], s)
        end
      else ([], s)
  | [] => ([], s)
  end.

(** The optional exponent: [e] or [E], an optional sign and digits. *)
Definition exp_part (s : str) : str * str :=
  match s with
  | c :: r =>
      if Ascii.eqb c "e" || Ascii.eqb c "E" then
        let (sg, r1) :=
          match r with
          | g :: r0 =>
              if Ascii.eqb g "+" || Ascii.eqb g "-" then ([g], r0)
              else ([], r)
          | [] => ([], r)
          end in
        match digits1 r1 with
        | Some (ds, r') => (c :: sg ++ ds, r')
        | None => ([], s)
        end
      else ([], s)
  | [] => ([], s)
  end.

(** A number: an optional minus sign, an integer part, an optional fraction
    and an optional exponent. *)
Definition read_number (s : str) : option (json * str) :=
  let (sign, s1) :=
    match s with
    | c :: r => if Ascii.eqb c "-" then ([c], r) else ([], s)
    | [] => ([], s)
    end in
  match int_part s1 with
  | None => None
  | Some (ip, s2) =>
      let (fp, s3) := frac_part s2 in
      let (ep, s4) := exp_part s3 in
      match fp, ep with
      | [], [] =>
          Some (JInt (match sign with
                      | [] => digits_value ip
                      | _ :: _ => - digits_value ip
                      end)%Z, s4)
      | _, _ => Some (JFloat (sign ++ ip ++ fp ++ ep), s4)
      end
  end.

Definition keyword (w : string) (v : json) (s : str) : option (json * str) :=
  let w := lit w in
  if startswith w s then Some (v, skipn (List.length w) s) else None.

(** [d[k] = v] on the items of a dict. *)
Fixpoint dict_set (k : str) (v : json) (m : list (str * json))
    : list (str * json) :=
  match m with
  | [] => [(k, v)]
  | (k', v') :: m' =>
      if str_eqb k k' then (k, v) :: m' else (k', v') :: dict_set k v m'
  end.

Fixpoint read_value (fuel : nat) (s : str) {struct fuel}
    : option (json * str) :=
  match fuel with
  | 0 => None
  | S f =>
      match s with
      | [] => None
      | c :: r =>
          if Ascii.eqb c "034" then
            match read_string r with
            | Some (body, r') => Some (JString body, r')
            | None => None
            end
          else if Ascii.eqb c "{" then
            match skip_ws r with
            | [] => None
            | d :: r' =>
                if Ascii.eqb d "}" then Some (JObject [], r')
                else
                  match read_members f [] (d :: r') with
                  | Some (m, r2) => Some (JObject m, r2)
                  | None => None
                  end
            end
          else if Ascii.eqb c "[" then
            match skip_ws r with
            | [] => None
            | d :: r' =>
                if Ascii.eqb d "]" then Some (JArray [], r')
                else
                  match read_items f [] (d :: r') with
                  | Some (l, r2) => Some (JArray l, r2)
                  | None => None
                  end
            end
          else if Ascii.eqb c "n" then keyword "null" JNull s
          else if Ascii.eqb c "t" then keyword "true" (JBool true) s
          else if Ascii.eqb c "f" then keyword "false" (JBool false) s
          else if Ascii.eqb c "N" then keyword "NaN" (JFloat (lit "NaN")) s
          else if Ascii.eqb c "I" then
            keyword "Infinity" (JFloat (lit "Infinity")) s
          else
            match read_number s with
            | Some x => Some x
            | None => keyword "-Infinity" (JFloat (lit "-Infinity")) s
            end
      end
  end

with read_members (fuel : nat) (acc : list (str * json)) (s : str)
    {struct fuel} : option (list (str * json) * str) :=
  match fuel with
  | 0 => None
  | S f =>
      match s with
      | c :: r =>
          if Ascii.eqb c "034" then
            match read_string r with
            | Some (key, r1) =>
                match skip_ws r1 with
                | d :: r2 =>
                    if Ascii.eqb d ":" then
                      match read_value f (skip_ws r2) with
                      | Some (v, r3) =>
                          let acc := dict_set key v acc in
                          match skip_ws r3 with
                          | e :: r4 =>
                              if Ascii.eqb e "}" then Some (acc, r4)
                              else if Ascii.eqb e "," then
                                read_members f acc (skip_ws r4)
                              else None
                          | [] => None
                          end
                      | None => None
                      end
                    else None
                | [] => None
                end
            | None => None
            end
          else None
      | [] => None
      end
  end

with read_items (fuel : nat) (acc : list json) (s : str) {struct fuel}
    : option (list json * str) :=
  match fuel with
  | 0 => None
  | S f =>
      match read_value f s with
      | Some (v, r1) =>
          let acc := acc ++ [v] in
          match skip_ws r1 with
          | e :: r2 =>
              if Ascii.eqb e "]" then Some (acc, r2)
              else if Ascii.eqb e "," then read_items f acc (skip_ws r2)
              else None
          | [] => None
          end
      | None => None
      end
  end.

(** [json.loads] on text: the JSON whitespace around the document is skipped,
    one value is read, and nothing may follow it. *)
Definition loads (s : str) : option json :=
  let doc := strip_by is_ws s in
  match read_value (2 * List.length doc + 2) doc with
  | Some (v, []) => Some v
  | _ => None
  end.

End JsonReader.

(* ================================================================= *)
(** ** The world of one process run *)

(** An [EmailMessage] with the three headers and the content the Notifier
    sets. *)
Record EmailMessage := {
  msg_from : str;
  msg_to : str;
  msg_subject : str;
  msg_content : str
}.

(** What the program does to its surroundings, in order.  [FileWrite path
    content]: the file at [path] was opened for writing and is left holding
    [content].  [Notify] marks the entry of [send_email] with its two
    arguments; it is an observation point and nothing reads it. *)
Inductive event : Type :=
| Print (line : str)
| ChatSend (message : json)
| FileWrite (path content : str)
| Notify (subject body : json)
| SmtpAttempt (msg : EmailMessage).

Record World := {
  trace : list event;
  files : list (str * str)
}.

Definition emit (ev : event) (w : World) : World :=
  {| trace := trace w ++ [ev]; files := files w |}.

(** [open(path, "w")] followed by [write(content)]: the file is created or
    overwritten. *)
Fixpoint store (path content : str) (fs : list (str * str))
    : list (str * str) :=
  match fs with
  | [] => [(path, content)]
  | (p, c) :: fs' =>
      if str_eqb p path then (path, content) :: fs'
      else (p, c) :: store path content fs'
  end.

Fixpoint lookup_file (path : str) (fs : list (str * str)) : option str :=
  match fs with
  | [] => None
  | (p, c) :: fs' => if str_eqb p path then Some c else lookup_file path fs'
  end.

(** The configuration and the surroundings of the program.  The oracles see
    the world at the moment of the call, so that a reply may depend on all
    that happened before. *)
Record Env := {
  json_loads : str -> option json;
  (** [template.format] with keyword arguments *)
  py_format : str -> list (str * json) -> result str;
  (** the text Python prints for an object that is not a [str] *)
  py_repr : json -> str;
  master_prompt_data : json;
  YOUR_EMAIL_ADDRESS : str;
  RECIPIENT_EMAIL : str;
  OUTPUT_FOLDER : str;
  (** [chat.send_message(m).text], or the exception it raises *)
  chat_reply : World -> json -> result str;
  (** [str(datetime.now())] and [datetime.now().strftime('%Y-%m-%d')] *)
  now_repr : World -> str;
  today : World -> str;
  (** the exception raised by opening or writing the file, if any *)
  fs_fails : World -> str -> option exn;
  (** when the attempt to write [content] at a path raises: [None] if the
      file could not be opened and nothing was touched, [Some kept] if it was
      opened, hence created or truncated, and is left holding [kept] *)
  fs_leftover : World -> str -> str -> option str;
  (** [msg[name] = value] on an [EmailMessage]: the text stored in the
      header, or the exception raised *)
  set_header : str -> json -> result str;
  (** [msg.set_content(body)]: the payload stored, or the exception raised *)
  set_content : json -> result str;
  (** the exception raised inside the SMTP block, if any *)
  smtp_fails : World -> EmailMessage -> option exn
}.

(* ================================================================= *)
(** ** State and exceptions *)

Definition M (A : Type) : Type := World -> result A * World.

Definition ret {A} (a : A) : M A := fun w => (Ok a, w).
Definition raise {A} (e : exn) : M A := fun w => (Raise e, w).
Definition bind {A B} (c : M A) (k : A -> M B) : M B :=
  fun w =>
    match c w with
    | (Ok a, w') => k a w'
    | (Raise e, w') => (Raise e, w')
    end.
(** [try: c  except Exception as e: h e]; an exception outside class
    [Exception] is not caught. *)
Definition try_except {A} (c : M A) (h : exn -> M A) : M A :=
  fun w =>
    match c w with
    | (Ok a, w') => (Ok a, w')
    | (Raise e, w') => if is_exception e then h e w' else (Raise e, w')
    end.
Definition lift {A} (r : result A) : M A := fun w => (r, w).

Notation "x <- c ;; k" := (bind c (fun x => k))
  (at level 61, c at next level, right associativity).
Notation "c ;;; k" := (bind c (fun _ => k))
  (at level 61, right associativity).

Definition print (line : str) : M unit := fun w => (Ok tt, emit (Print line) w).

(* ================================================================= *)
(** ** Python operations on objects *)

Definition type_name (v : json) : str :=
  match v with
  | JNull => lit "NoneType"
  | JBool _ => lit "bool"
  | JInt _ => lit "int"
  | JFloat _ => lit "float"
  | JString _ => lit "str"
  | JArray _ => lit "list"
  | JObject _ => lit "dict"
  end.

Definition no_attribute (v : json) (attr : string) : exn :=
  AttributeError (lit "'" ++ type_name v ++ lit "' object has no attribute '"
                  ++ lit attr ++ lit "'").

(** [o[k]] for a text key [k]. *)
Definition getitem (o : json) (k : str) : result json :=
  match o with
  | JObject m =>
      match assoc k m with
      | Some v => Ok v
      | None => Raise (KeyError k)
      end
  | JArray _ =>
      Raise (TypeError (lit "list indices must be integers or slices, not str"))
  | JString _ => Raise (TypeError (lit "string indices must be integers"))
  | _ =>
      Raise (TypeError (lit "'" ++ type_name o
                        ++ lit "' object is not subscriptable"))
  end.

(** [o.get(k, default)] *)
Definition dict_get (o : json) (k : str) (default : json) : result json :=
  match o with
  | JObject m =>
      Ok (match assoc k m with Some v => v | None => default end)
  | _ => Raise (no_attribute o "get")
  end.

(** [str(e)] *)
Definition exn_str (e : exn) : str :=
  match e with
  | ValueError msg => msg
  | KeyError key => lit "'" ++ key ++ lit "'"
  | TypeError msg => msg
  | AttributeError msg => msg
  | EnvError _ msg => msg
  | Interrupt _ msg => msg
  end.

(** [for c in v]: the items a loop over [v] yields. *)
Definition py_iter (v : json) : result (list json) :=
  match v with
  | JString s => Ok (map (fun c => JString [c]) s)
  | JArray l => Ok l
  | JObject m => Ok (map (fun kv => JString (fst kv)) m)
  | _ =>
      Raise (TypeError (lit "'" ++ type_name v
                        ++ lit "' object is not iterable"))
  end.

(** [x.isalnum()] on a text of any length. *)
Definition str_isalnum (x : str) : bool :=
  match x with
  | [] => false
  | _ :: _ => forallb isalnum x
  end.

(** [c.isalnum() or c in (" ", "_", "-")] *)
Definition keeps (x : str) : bool :=
  str_isalnum x
  || str_eqb x (lit " ") || str_eqb x (lit "_") || str_eqb x (lit "-").

(** [os.path.join(a, b)] *)
Definition path_join (a b : str) : str :=
  if startswith (lit "/") b then b
  else
    match a with
    | [] => b
    | _ :: _ => if endswith (lit "/") a then a ++ b else a ++ lit "/" ++ b
    end.

(** The line boundaries of [str.splitlines], for the code points 0..255. *)
Definition is_linebreak (c : ascii) : bool :=
  in_range 10 13 c || in_range 28 30 c || (code c =? 133).

(** [s.splitlines()] *)
Fixpoint splitlines_from (cur : str) (s : str) : list str :=
  match s with
  | [] => match cur with [] => [] | _ :: _ => [rev cur] end
  | c :: r =>
      if code c =? 13 then
        match r with
        | d :: r' =>
            if code d =? 10 then rev cur :: splitlines_from [] r'
            else rev cur :: splitlines_from [] r
        | [] => rev cur :: splitlines_from [] r
        end
      else if is_linebreak c then rev cur :: splitlines_from [] r
      else splitlines_from (c :: cur) r
  end.
Definition splitlines (s : str) : list str := splitlines_from [] s.

Definition rbind {A B} (r : result A) (k : A -> result B) : result B :=
  match r with
  | Ok a => k a
  | Raise e => Raise e
  end.

(* ================================================================= *)
(** ** The Notifier and the cycle *)

Section Cycle.

Variable E : Env.

(** The text an f-string or [print] shows for an object. *)
Definition py_str (v : json) : str :=
  match v with
  | JString s => s
  | _ => py_repr E v
  end.

(** [chat.send_message(message).text] *)
Definition send_message (message : json) : M str :=
  fun w => (chat_reply E w message, emit (ChatSend message) w).

(** [body[:200]] as the f-string of line 96 shows it. *)
Definition preview (body : json) : result str :=
  match body with
  | JString s => Ok (firstn 200 s)
  | JArray l => Ok (py_repr E (JArray (firstn 200 l)))
  | JObject _ => Raise (TypeError (lit "unhashable type: 'slice'"))
  | _ =>
      Raise (TypeError (lit "'" ++ type_name body
                        ++ lit "' object is not subscriptable"))
  end.

(** Lines 105-109: the SMTP session, as one attempt to deliver [msg]. *)
Definition smtp_session (msg : EmailMessage) : M unit :=
  fun w =>
    (match smtp_fails E w msg with
     | Some e => Raise e
     | None => Ok tt
     end, emit (SmtpAttempt msg) w).

(** Observation point: the Notifier is entered with these arguments. *)
Definition notifier_called (subject body : json) : M unit :=
  fun w => (Ok tt, emit (Notify subject body) w).

Definition send_email (subject body : json) : M unit :=
  notifier_called subject body ;;;
  print (lit "--- Sending Email ---") ;;;
  print (lit "Subject: " ++ py_str subject) ;;;
  shown <- lift (preview body) ;;
  print (lit "Body Preview: " ++ shown ++ lit "...") ;;;
  from <- lift (set_header E (lit "From") (JString (YOUR_EMAIL_ADDRESS E))) ;;
  to <- lift (set_header E (lit "To") (JString (RECIPIENT_EMAIL E))) ;;
  subj <- lift (set_header E (lit "Subject") subject) ;;
  content <- lift (set_content E body) ;;
  let msg := {| msg_from := from; msg_to := to;
                msg_subject := subj; msg_content := content |} in
  try_except
    (smtp_session msg ;;;
     print (lit "--- Email Sent ---"))
    (fun e => print (lit "Email sending failed: " ++ exn_str e)).

(** [master_prompt_data["autonomous_operational_directives"][name]["command"]] *)
Definition directive (name : string) : result json :=
  rbind (getitem (master_prompt_data E)
                 (lit "autonomous_operational_directives"))
    (fun ds => rbind (getitem ds (lit name))
    (fun d => getitem d (lit "command"))).

(** [d.format(...)] *)
Definition format_directive (d : json) (kwargs : list (str * json))
    : result str :=
  match d with
  | JString template => py_format E template kwargs
  | _ => Raise (no_attribute d "format")
  end.

(** The generator of line 144 joined into one text: the kept items of the
    loop, in order. *)
Fixpoint join_kept (items : list json) : result str :=
  match items with
  | [] => Ok []
  | c :: rest =>
      match c with
      | JString x =>
          if keeps x then rbind (join_kept rest) (fun t => Ok (x ++ t))
          else join_kept rest
      | _ => Raise (no_attribute c "isalnum")
      end
  end.

(** Line 144 *)
Definition safe_title (title : json) : result str :=
  rbind (py_iter title) (fun items =>
  rbind (join_kept items) (fun kept => Ok (strip kept))).

(** Line 145, for the date text [date]. *)
Definition article_filename (date safe : str) : str :=
  date ++ lit "_" ++ replace " " "_" safe ++ lit ".txt".

(** The file at [path] is left holding [content]. *)
Definition leave_file (path content : str) (w : World) : World :=
  emit (FileWrite path content)
       {| trace := trace w; files := store path content (files w) |}.

(** Lines 147-148.  When the attempt raises, the file is untouched if it
    could not be opened; once opened it exists and holds what the failed
    write left of it. *)
Definition write_file (path content : str) : M unit :=
  fun w =>
    match fs_fails E w path with
    | Some e =>
        (Raise e,
         match fs_leftover E w path content with
         | Some kept => leave_file path kept w
         | None => w
         end)
    | None => (Ok tt, leave_file path content w)
    end.

Definition clock_now : M str := fun w => (Ok (now_repr E w), w).
Definition clock_today : M str := fun w => (Ok (today E w), w).

(** Lines 119-156: steps 1 to 4; the values step 5 uses are returned. *)
Definition steps_1_to_4 : M (json * json * json) :=
  print (lit "Step 1: Generating new topic...") ;;;
  directive_1 <- lift (directive "directive_1_daily_topic_generation") ;;
  topic_text <- send_message directive_1 ;;
  topic_data <- lift (_extract_json (json_loads E) topic_text) ;;
  title <- lift (getitem topic_data (lit "title")) ;;
  abstract <- lift (getitem topic_data (lit "abstract")) ;;
  print (lit "Generated Title: " ++ py_str title) ;;;
  print (lit "Step 2: Generating outline...") ;;;
  directive_2 <- lift (directive "directive_2_deep_research_and_outline") ;;
  message_2 <- lift (format_directive directive_2
                       [(lit "title", title); (lit "abstract", abstract)]) ;;
  outline <- send_message (JString message_2) ;;
  print (lit "Outline Generated.") ;;;
  print (lit "Step 3: Writing full article...") ;;;
  directive_3 <- lift (directive "directive_3_full_article_composition") ;;
  message_3 <- lift (format_directive directive_3
                       [(lit "outline", JString outline)]) ;;
  article_text <- send_message (JString message_3) ;;
  print (lit "Article Composition Complete.") ;;;
  safe <- lift (safe_title title) ;;
  date <- clock_today ;;
  let filename := article_filename date safe in
  let filepath := path_join (OUTPUT_FOLDER E) filename in
  write_file filepath article_text ;;;
  print (lit "Article saved to " ++ filepath) ;;;
  print (lit "Step 4: Generating email report...") ;;;
  directive_4 <- lift (directive "directive_4_reporting_and_summarization") ;;
  message_4 <- lift (format_directive directive_4
                       [(lit "title", title);
                        (lit "full_article_text",
                         JString (firstn 4000 article_text))]) ;;
  report_text <- send_message (JString message_4) ;;
  email_data <- lift (_extract_json (json_loads E) report_text) ;;
  ret (title, abstract, email_data).

(** Lines 159-162: step 5. *)
Definition step_5 (r : json * json * json) : M unit :=
  let '(title, abstract, email_data) := r in
  subject <- lift (dict_get email_data (lit "email_subject")
                     (JString (lit "Research Article Complete: "
                               ++ py_str title))) ;;
  body <- lift (dict_get email_data (lit "email_body") abstract) ;;
  send_email subject body ;;;
  now <- clock_now ;;
  print (lit "--- Cycle Complete at " ++ now ++ lit " ---").

(** Lines 119-162: the body of the [try]. *)
Definition cycle_body : M unit := r <- steps_1_to_4 ;; step_5 r.

(** Lines 164-165: the handler of the [try]. *)
Definition on_error (e : exn) : M unit :=
  print (lit "An error occurred: " ++ exn_str e).

Definition run_daily_research_cycle : M unit :=
  now <- clock_now ;;
  print ("010"%char :: lit "--- Starting Daily Research Cycle at " ++ now
         ++ lit " ---") ;;;
  try_except cycle_body on_error.

End Cycle.

(* ================================================================= *)
(** ** A reference environment

    Library behaviour and scripted surroundings, to run the cycle on concrete
    replies. *)

Module Reference.

(** The text Python shows for an object; text is quoted without escapes. *)
Fixpoint repr (v : json) : str :=
  match v with
  | JNull => lit "None"
  | JBool true => lit "True"
  | JBool false => lit "False"
  | JInt n => list_ascii_of_string (NilEmpty.string_of_int (Z.to_int n))
  | JFloat l => l
  | JString s => lit "'" ++ s ++ lit "'"
  | JArray l =>
      lit "["
      ++ (fix go (l : list json) : str :=
            match l with
            | [] => []
            | [x] => repr x
            | x :: l' => repr x ++ lit ", " ++ go l'
            end) l
      ++ lit "]"
  | JObject m =>
      lit "{"
      ++ (fix go (m : list (str * json)) : str :=
            match m with
            | [] => []
            | [(k, x)] => lit "'" ++ k ++ lit "': " ++ repr x
            | (k, x) :: m' => lit "'" ++ k ++ lit "': " ++ repr x ++ lit ", "
                              ++ go m'
            end) m
      ++ lit "}"
  end.

Definition show (v : json) : str :=
  match v with
  | JString s => s
  | _ => repr v
  end.

Definition prepend (c : ascii) (r : result str) : result str :=
  rbind r (fun t => Ok (c :: t)).

(** [str.format] for templates whose replacement fields are plain names;
    [field] holds the name being read, last character first. *)
Fixpoint format_from (kwargs : list (str * json)) (field : option str)
    (s : str) : result str :=
  match s, field with
  | [], None => Ok []
  | [], Some _ => Raise (ValueError (lit "expected '}' before end of string"))
  | c :: r, Some name =>
      if Ascii.eqb c "}" then
        match assoc (rev name) kwargs with
        | Some v => rbind (format_from kwargs None r)
                          (fun t => Ok (show v ++ t))
        | None => Raise (KeyError (rev name))
        end
      else format_from kwargs (Some (c :: name)) r
  | c :: r, None =>
      if Ascii.eqb c "{" then
        match r with
        | d :: r' =>
            if Ascii.eqb d "{" then prepend c (format_from kwargs None r')
            else format_from kwargs (Some []) r
        | [] => format_from kwargs (Some []) r
        end
      else if Ascii.eqb c "}" then
        match r with
        | d :: r' =>
            if Ascii.eqb d "}" then prepend c (format_from kwargs None r')
            else Raise (ValueError
                          (lit "Single '}' encountered in format string"))
        | [] => Raise (ValueError
                         (lit "Single '}' encountered in format string"))
        end
      else prepend c (format_from kwargs None r)
  end.

Definition format (template : str) (kwargs : list (str * json)) : result str :=
  format_from kwargs None template.

Definition prompt_text : str := q
  "{'autonomous_operational_directives': {
     'directive_1_daily_topic_generation': {'command': 'Propose a topic.'},
     'directive_2_deep_research_and_outline':
        {'command': 'Outline {title}: {abstract}'},
     'directive_3_full_article_composition':
        {'command': 'Write the article for: {outline}'},
     'directive_4_reporting_and_summarization':
        {'command': 'Summarise {title} as an email: {full_article_text}'}}}".

Definition prompt : json :=
  match JsonReader.loads prompt_text with
  | Some v => v
  | None => JNull
  end.

(** Whether Python takes the object for false. *)
Definition falsy (v : json) : bool :=
  match v with
  | JNull => true
  | JBool b => negb b
  | JInt n => (n =? 0)%Z
  | JFloat l =>
      forallb (fun c => negb (in_range 49 57 c))
              (fst (JsonReader.span
                      (fun c => negb (Ascii.eqb c "e" || Ascii.eqb c "E")) l))
      && negb (str_eqb l (lit "NaN")) && negb (str_eqb l (lit "Infinity"))
      && negb (str_eqb l (lit "-Infinity"))
  | JString s => match s with [] => true | _ :: _ => false end
  | JArray l => match l with [] => true | _ :: _ => false end
  | JObject m => match m with [] => true | _ :: _ => false end
  end.

(** [msg[name] = value] under the default policy of [EmailMessage], for the
    Subject header and for well-formed addresses: a text of more than one
    line is refused, an object that is not text gives an empty header when
    it is false and is refused otherwise.  The syntax of addresses is not
    modelled. *)
Definition header (name : str) (value : json) : result str :=
  match value with
  | JString s =>
      if 1 <? List.length (splitlines s) then
        Raise (ValueError (lit
          "Header values may not contain linefeed or carriage return characters"))
      else Ok s
  | _ =>
      if falsy value then Ok []
      else Raise (TypeError (lit "expected string or bytes-like object"))
  end.

(** The lines of a text as [bytes.splitlines] cuts them. *)
Fixpoint lines_from (cur : str) (s : str) : list str :=
  match s with
  | [] => match cur with [] => [] | _ :: _ => [rev cur] end
  | c :: r =>
      if code c =? 13 then
        match r with
        | d :: r' =>
            if code d =? 10 then rev cur :: lines_from [] r'
            else rev cur :: lines_from [] r
        | [] => rev cur :: lines_from [] r
        end
      else if code c =? 10 then rev cur :: lines_from [] r
      else lines_from (c :: cur) r
  end.

(** [msg.set_content(body)] for ASCII text: the lines of the body, each
    ended by a line feed; only text has a content handler. *)
Definition content (body : json) : result str :=
  match body with
  | JString s =>
      Ok (match lines_from [] s with
          | [] => ["010"%char]
          | ls => List.concat (map (fun l => l ++ ["010"%char]) ls)
          end)
  | _ => Raise (KeyError (lit "builtins." ++ type_name body))
  end.

Definition chat_count (w : World) : nat :=
  List.length (filter (fun ev => match ev with ChatSend _ => true
                                          | _ => false end) (trace w)).

(** A chat service that answers its k-th message with the k-th entry of
    [replies], a file system that fails as [fs] says and an SMTP server that
    fails as [smtp] says. *)
Definition env (replies : list (result str)) (fs smtp : option exn) : Env :=
  {| json_loads := JsonReader.loads;
     py_format := format;
     py_repr := repr;
     master_prompt_data := prompt;
     YOUR_EMAIL_ADDRESS := lit "your_email@example.com";
     RECIPIENT_EMAIL := lit "recipient_email@example.com";
     OUTPUT_FOLDER := lit "articles";
     chat_reply := fun w _ =>
       nth (chat_count w) replies
           (Raise (EnvError (lit "ConnectionError") (lit "no reply")));
     now_repr := fun _ => lit "2024-05-17 01:00:00.000000";
     today := fun _ => lit "2024-05-17";
     fs_fails := fun _ _ => fs;
     fs_leftover := fun _ _ _ => None;
     set_header := header;
     set_content := content;
     smtp_fails := fun _ _ => smtp |}.

Definition empty_world : World := {| trace := []; files := [] |}.

End Reference.

(* ================================================================= *)
(** ** Vocabulary of the properties *)

Definition all_of (p : ascii -> bool) (s : str) : Prop :=
  Forall (fun c => p c = true) s.

Definition is_brace (c : ascii) : bool := Ascii.eqb c "{" || Ascii.eqb c "}".

Definition brace_free (s : str) : Prop :=
  Forall (fun c => is_brace c = false) s.

Definition brace_delta (c : ascii) : Z :=
  if Ascii.eqb c "{" then 1%Z else if Ascii.eqb c "}" then (-1)%Z else 0%Z.

(** [inner] is [s] without a brace-free margin on either side. *)
Definition margins (s inner : str) : Prop :=
  exists a b, s = a ++ inner ++ b /\ brace_free a /\ brace_free b.

(** The brace depth at the end of [s], counted from zero at its start. *)
Fixpoint depth_of (s : str) : Z :=
  match s with
  | [] => 0%Z
  | c :: r => (brace_delta c + depth_of r)%Z
  end.

(** The depth is not zero after any of the first [n] characters of [s]. *)
Definition open_through (s : str) (n : nat) : bool :=
  forallb (fun k => negb (depth_of (firstn k s) =? 0)%Z) (seq 1 n).

(** [s] opens a brace that is never closed. *)
Definition never_closed (s : str) : bool :=
  startswith (lit "{") s && open_through s (List.length s).

(** [cand] is a balanced top-level region: it starts with an opening brace
    and the depth returns to zero at its last character, not before. *)
Definition balanced_region (cand : str) : bool :=
  startswith (lit "{") cand && (depth_of cand =? 0)%Z
  && open_through cand (List.length cand - 1).

(** What the program relies on from [json.loads]: the white space around a
    document does not matter, and the text of an object is enclosed in
    braces. *)
Record loads_laws (loads : str -> option json) : Prop := {
  loads_strip :
    forall s v, loads s = Some v -> loads (strip s) = Some v;
  loads_object :
    forall s m, loads s = Some (JObject m) ->
    exists mid, strip s = "{"%char :: mid ++ ["}"%char]
}.

(** The forms in which a reply carries the document [s]: bare, or between
    triple-backtick fences with or without the [json] tag. *)
Inductive wrapping (s : str) : str -> Prop :=
| bare : wrapping s s
| fenced (ws1 ws2 tag : str) :
    all_of isspace ws1 -> all_of isspace ws2 ->
    tag = [] \/ tag = lit "json" ->
    wrapping s (ws1 ++ FENCE ++ tag ++ s ++ FENCE ++ ws2).

(** [s] neither starts nor, read backwards, continues with a character of
    [p]; used on a text and on its reverse. *)
Definition firm (p : ascii -> bool) (s : str) : Prop :=
  match s with
  | [] => False
  | x :: _ => p x = false
  end.

(** [t] is what is left of [s] after some of it was read. *)
Definition tail_of (t s : str) : Prop := exists c, s = c ++ t.

(** Reading [s] down to [r] took at least one character, and the last one
    taken is not white space. *)
Definition eats (s r : str) : Prop :=
  exists y, isspace y = false /\ tail_of (y :: r) s.

Definition is_number (v : json) : Prop :=
  match v with
  | JInt _ | JFloat _ => True
  | _ => False
  end.

(** The messages handed to the chat session, oldest first. *)
Fixpoint chat_sent (t : list event) : list json :=
  match t with
  | [] => []
  | ChatSend m :: t' => m :: chat_sent t'
  | _ :: t' => chat_sent t'
  end.

(** The calls of the Notifier, oldest first. *)
Fixpoint notifications (t : list event) : list (json * json) :=
  match t with
  | [] => []
  | Notify subject body :: t' => (subject, body) :: notifications t'
  | _ :: t' => notifications t'
  end.

(** The files written, oldest first. *)
Fixpoint writes (t : list event) : list (str * str) :=
  match t with
  | [] => []
  | FileWrite path content :: t' => (path, content) :: writes t'
  | _ :: t' => writes t'
  end.

(** The characters a sanitized title keeps. *)
Definition allowed (c : ascii) : bool :=
  isalnum c || Ascii.eqb c " " || Ascii.eqb c "_" || Ascii.eqb c "-".

(** The stem of the article file name, in the words of the specification:
    keep the allowed characters, trim, turn spaces into underscores. *)
Definition sanitize (title : str) : str :=
  replace " " "_" (strip (filter allowed title)).

Definition is_notify (ev : event) : bool :=
  match ev with Notify _ _ => true | _ => false end.

Definition is_write (ev : event) : bool :=
  match ev with FileWrite _ _ => true | _ => false end.

(** [c] takes every world to one related to it by [R], whether it returns
    or raises. *)
Definition respects {A} (R : World -> World -> Prop) (c : M A) : Prop :=
  forall w, R w (snd (c w)).

(** The trace grew by events of which none is selected by [sel]. *)
Definition quiet_step (sel : event -> bool) (w w' : World) : Prop :=
  exists added, trace w' = trace w ++ added /\ filter sel added = [].

(** Neither a file written nor a Notifier call. *)
Definition calm_step (w w' : World) : Prop :=
  exists added,
    trace w' = trace w ++ added /\ filter is_write added = []
    /\ filter is_notify added = [] /\ files w' = files w.

(** No file written, and the files are as they were. *)
Definition idle_step (w w' : World) : Prop :=
  exists added,
    trace w' = trace w ++ added /\ filter is_write added = []
    /\ files w' = files w.

(** One file written at most, and what was written is what the file system
    holds afterwards. *)
Definition once_step (w w' : World) : Prop :=
  exists added,
    trace w' = trace w ++ added
    /\ ((filter is_write added = [] /\ files w' = files w)
        \/ exists path content,
             filter is_write added = [FileWrite path content]
             /\ files w' = store path content (files w)).

(** The world when the [try] block of the cycle is entered, and when the
    first message is sent. *)
Definition world_at_start (E : Env) (w : World) : World :=
  emit (Print ("010"%char :: lit "--- Starting Daily Research Cycle at "
               ++ now_repr E w ++ lit " ---")) w.

Definition world_at_step_1 (E : Env) (w : World) : World :=
  emit (Print (lit "Step 1: Generating new topic...")) (world_at_start E w).

(** The world when the Notifier, called on [w], enters its SMTP block;
    [shown] is the preview of the body. *)
Definition world_at_delivery (E : Env) (subject body : json) (shown : str)
    (w : World) : World :=
  emit (Print (lit "Body Preview: " ++ shown ++ lit "..."))
    (emit (Print (lit "Subject: " ++ py_str E subject))
       (emit (Print (lit "--- Sending Email ---"))
          (emit (Notify subject body) w))).


(** How a call whose handler is [except Exception] can end: it returned, or
    an exception outside class [Exception] left it. *)
Definition returned_or_interrupted (r : result unit) : Prop :=
  r = Ok tt \/ exists e, r = Raise e /\ is_exception e = false.

(* ================================================================= *)
(** ** Vocabulary of the further properties *)

Definition is_chat (ev : event) : bool :=
  match ev with ChatSend _ => true | _ => false end.

Definition is_smtp (ev : event) : bool :=
  match ev with SmtpAttempt _ => true | _ => false end.

(** The messages handed to the SMTP block, oldest first. *)
Fixpoint smtp_attempts (t : list event) : list EmailMessage :=
  match t with
  | [] => []
  | SmtpAttempt msg :: t' => msg :: smtp_attempts t'
  | _ :: t' => smtp_attempts t'
  end.

(** The trace grew by [n] events selected by [sel] at most. *)
Definition count_step (sel : event -> bool) (n : nat) (w w' : World) : Prop :=
  exists added,
    trace w' = trace w ++ added /\ List.length (filter sel added) <= n.

(** [c], when it returns, has taken the world to one related by [R]. *)
Definition respects_ok {A} (R : World -> World -> Prop) (c : M A) : Prop :=
  forall w a w', c w = (Ok a, w') -> R w w'.

(** A file was written. *)
Definition wrote_step (w w' : World) : Prop :=
  exists added, trace w' = trace w ++ added /\ filter is_write added <> [].

(** The worlds in which the later oracles of a cycle are consulted, given
    what the earlier steps produced. *)
Definition world_at_step_2 (E : Env) (w : World) (d1 : json) (title : str)
    : World :=
  emit (Print (lit "Step 2: Generating outline..."))
    (emit (Print (lit "Generated Title: " ++ title))
       (emit (ChatSend d1) (world_at_step_1 E w))).

Definition world_at_step_3 (w2 : World) (m2 : str) : World :=
  emit (Print (lit "Step 3: Writing full article..."))
    (emit (Print (lit "Outline Generated."))
       (emit (ChatSend (JString m2)) w2)).

Definition world_at_write (w3 : World) (m3 : str) : World :=
  emit (Print (lit "Article Composition Complete."))
    (emit (ChatSend (JString m3)) w3).

Definition world_at_step_4 (ww : World) (path article : str) : World :=
  emit (Print (lit "Step 4: Generating email report..."))
    (emit (Print (lit "Article saved to " ++ path))
       (emit (FileWrite path article)
          {| trace := trace ww; files := store path article (files ww) |})).

(** Where the article of a cycle goes: line 146, for the world [ww] in which
    the date is read and a text title. *)
Definition article_path (E : Env) (ww : World) (title : str) : str :=
  path_join (OUTPUT_FOLDER E)
    (article_filename (today E ww) (strip (filter allowed title))).

(** The subject and the body step 5 passes to the Notifier (lines 159-160). *)
Definition email_subject_of (E : Env) (title : json)
    (email : list (str * json)) : json :=
  match assoc (lit "email_subject") email with
  | Some v => v
  | None => JString (lit "Research Article Complete: " ++ py_str E title)
  end.

Definition email_body_of (abstract : json) (email : list (str * json))
    : json :=
  match assoc (lit "email_body") email with
  | Some v => v
  | None => abstract
  end.




(* ================================================================= *)
(** * Properties *)

(** ** Text operations *)

Section TextFacts.

Variable p : ascii -> bool.


Lemma dropwhile_split (s : str) :
  exists a, s = a ++ dropwhile p s /\ all_of p a.
Proof.
  induction s as [|c s IH]; simpl.
  - exists []. split; [reflexivity | constructor].
  - destruct (p c) eqn:Hc.
    + destruct IH as (a & Hs & Ha). exists (c :: a). split.
      * simpl. now rewrite <- Hs.
      * now constructor.
    + exists []. split; [reflexivity | constructor].
Qed.

Lemma dropwhile_skip (a s : str) :
  all_of p a -> dropwhile p (a ++ s) = dropwhile p s.
Proof.
  induction 1 as [|c a Hc _ IH]; simpl; [reflexivity|].
  now rewrite Hc.
Qed.

Lemma dropwhile_stop (x : ascii) (s : str) :
  p x = false -> dropwhile p (x :: s) = x :: s.
Proof. intros H. simpl. now rewrite H. Qed.

Lemma all_of_rev (s : str) : all_of p s -> all_of p (rev s).
Proof. apply Forall_rev. Qed.

Lemma strip_by_split (s : str) :
  exists a b, s = a ++ strip_by p s ++ b /\ all_of p a /\ all_of p b.
Proof.
  unfold strip_by, rstrip_by, lstrip_by.
  destruct (dropwhile_split s) as (a & Hs & Ha).
  destruct (dropwhile_split (rev (dropwhile p s))) as (b & Hr & Hb).
  exists a, (rev b). repeat split; [|assumption|now apply all_of_rev].
  rewrite <- rev_app_distr, <- Hr, rev_involutive. exact Hs.
Qed.

Lemma firm_cons (s : str) :
  firm p s -> exists x r, s = x :: r /\ p x = false.
Proof. destruct s as [|x r]; simpl; [tauto|]. intros H. now exists x, r. Qed.

Lemma strip_by_core (a core b : str) :
  all_of p a -> all_of p b -> firm p core -> firm p (rev core) ->
  strip_by p (a ++ core ++ b) = core.
Proof.
  intros Ha Hb Hh Hl. unfold strip_by, rstrip_by, lstrip_by.
  rewrite dropwhile_skip by assumption.
  destruct (firm_cons _ Hh) as (x & r & Hc & Hx).
  rewrite Hc at 1. simpl app. rewrite dropwhile_stop by assumption.
  change (x :: r ++ b) with ((x :: r) ++ b). rewrite <- Hc.
  rewrite rev_app_distr, dropwhile_skip by now apply all_of_rev.
  destruct (firm_cons _ Hl) as (y & r' & Hc' & Hy).
  rewrite Hc', dropwhile_stop by assumption.
  rewrite <- Hc'. apply rev_involutive.
Qed.

Lemma strip_by_In (s : str) (c : ascii) : In c (strip_by p s) -> In c s.
Proof.
  intros H. destruct (strip_by_split s) as (a & b & Hs & _).
  rewrite Hs. apply in_or_app. right. apply in_or_app. now left.
Qed.

End TextFacts.

Lemma startswith_split (pre s : str) :
  startswith pre s = true -> s = pre ++ skipn (List.length pre) s.
Proof.
  revert s. induction pre as [|a pre IH]; intros s H; simpl in *.
  - reflexivity.
  - destruct s as [|b s]; [discriminate|].
    apply andb_true_iff in H as [Hab Hs].
    apply Ascii.eqb_eq in Hab. subst b. simpl. f_equal. now apply IH.
Qed.

Lemma startswith_app (pre s : str) : startswith pre (pre ++ s) = true.
Proof.
  induction pre as [|a pre IH]; simpl; [reflexivity|].
  now rewrite Ascii.eqb_refl.
Qed.

Lemma find_none (c : ascii) (s : str) : ~ In c s -> find c s = None.
Proof.
  induction s as [|a s IH]; simpl; intros H; [reflexivity|].
  destruct (Ascii.eqb a c) eqn:Hac.
  - apply Ascii.eqb_eq in Hac. exfalso. apply H. now left.
  - rewrite IH; [reflexivity|]. intros Hin. apply H. now right.
Qed.

Lemma find_first (c : ascii) (a b : str) :
  ~ In c a -> find c (a ++ c :: b) = Some (List.length a).
Proof.
  induction a as [|x a IH]; simpl; intros H.
  - now rewrite Ascii.eqb_refl.
  - destruct (Ascii.eqb x c) eqn:Hxc.
    + apply Ascii.eqb_eq in Hxc. exfalso. apply H. now left.
    + rewrite IH; [reflexivity|]. intros Hin. apply H. now right.
Qed.

Lemma skipn_length_app (a b : str) : skipn (List.length a) (a ++ b) = b.
Proof. induction a; simpl; auto. Qed.

Lemma firstn_length_app (a b : str) : firstn (List.length a) (a ++ b) = a.
Proof. induction a; simpl; [reflexivity | now f_equal]. Qed.

Lemma slice_middle (a m b : str) :
  slice (a ++ m ++ b) (List.length a) (List.length a + List.length m) = m.
Proof.
  unfold slice. rewrite skipn_length_app.
  replace (List.length a + List.length m - List.length a)
    with (List.length m) by lia.
  apply firstn_length_app.
Qed.

(* ----------------------------------------------------------------- *)
(** ** The cleaning step keeps every brace *)

Lemma brace_free_app (a b : str) :
  brace_free a -> brace_free b -> brace_free (a ++ b).
Proof. intros Ha Hb. apply Forall_app. now split. Qed.

Lemma all_of_brace_free (p : ascii -> bool) (s : str) :
  (forall c, p c = true -> is_brace c = false) ->
  all_of p s -> brace_free s.
Proof. intros Hp. apply Forall_impl. exact Hp. Qed.

Lemma isspace_not_brace (c : ascii) : isspace c = true -> is_brace c = false.
Proof.
  unfold is_brace. intros H.
  destruct (Ascii.eqb c "{") eqn:E1; [apply Ascii.eqb_eq in E1; subst; discriminate|].
  destruct (Ascii.eqb c "}") eqn:E2; [apply Ascii.eqb_eq in E2; subst; discriminate|].
  reflexivity.
Qed.

Lemma backtick_not_brace (c : ascii) :
  mem c (lit "`") = true -> is_brace c = false.
Proof.
  unfold mem; simpl. rewrite orb_false_r. intros H.
  apply Ascii.eqb_eq in H. now subst.
Qed.

Lemma margins_refl (s : str) : margins s s.
Proof.
  exists [], []. simpl. rewrite app_nil_r. repeat split; constructor.
Qed.

Lemma margins_trans (s t u : str) : margins s t -> margins t u -> margins s u.
Proof.
  intros (a & b & Hs & Ha & Hb) (a' & b' & Ht & Ha' & Hb').
  exists (a ++ a'), (b' ++ b). subst s t.
  repeat split; try now apply brace_free_app.
  now rewrite <- !app_assoc.
Qed.

Lemma margins_strip (s : str) : margins s (strip s).
Proof.
  destruct (strip_by_split isspace s) as (a & b & Hs & Ha & Hb).
  exists a, b. repeat split; try assumption;
    eapply all_of_brace_free; eauto using isspace_not_brace.
Qed.

Lemma margins_strip_chars (s : str) : margins s (strip_chars (lit "`") s).
Proof.
  destruct (strip_by_split (fun c => mem c (lit "`")) s)
    as (a & b & Hs & Ha & Hb).
  exists a, b. repeat split; try assumption;
    (apply all_of_brace_free with (p := fun c => mem c (lit "`"));
     [intros c Hc; now apply backtick_not_brace | assumption]).
Qed.

Lemma margins_tag (s : str) :
  startswith (lit "json") s = true -> margins s (skipn 4 s).
Proof.
  intros H. apply startswith_split in H.
  exists (lit "json"), []. rewrite app_nil_r. repeat split.
  - exact H.
  - repeat constructor.
  - constructor.
Qed.

Lemma clean_margins (text : str) : margins text (clean text).
Proof.
  unfold clean.
  destruct (startswith FENCE (strip text) && endswith FENCE (strip text)).
  - destruct (startswith (lit "json")
                (strip (strip_chars (lit "`") (strip text)))) eqn:Htag.
    + eapply margins_trans; [apply margins_strip|].
      eapply margins_trans; [apply margins_strip_chars|].
      eapply margins_trans; [apply margins_strip|].
      eapply margins_trans; [apply margins_tag; exact Htag|].
      apply margins_strip.
    + eapply margins_trans; [apply margins_strip|].
      eapply margins_trans; [apply margins_strip_chars|].
      apply margins_strip.
  - apply margins_strip.
Qed.

(* ----------------------------------------------------------------- *)
(** ** The brace-counting loop *)

Lemma depth_of_app (a b : str) :
  depth_of (a ++ b) = (depth_of a + depth_of b)%Z.
Proof. induction a as [|c a IH]; simpl; [reflexivity|]. rewrite IH. lia. Qed.

Lemma open_through_spec (s : str) (n k : nat) :
  open_through s n = true -> 1 <= k <= n -> depth_of (firstn k s) <> 0%Z.
Proof.
  unfold open_through. intros H Hk.
  rewrite forallb_forall in H. specialize (H k).
  rewrite in_seq in H. specialize (H ltac:(lia)).
  apply negb_true_iff, Z.eqb_neq in H. exact H.
Qed.

Section Loop.

Variable loads : str -> option json.
Variable cleaned : str.
Variable start_idx : nat.

(** While the depth stays away from zero the loop runs to the end of the
    text and returns nothing. *)
Lemma brace_loop_open (rest : str) : forall (depth : Z) (idx : nat),
  (forall k, 1 <= k <= List.length rest ->
             (depth + depth_of (firstn k rest))%Z <> 0%Z) ->
  brace_loop loads cleaned start_idx idx rest depth = None.
Proof.
  induction rest as [|c rest IH]; intros depth idx H; simpl; [reflexivity|].
  assert (H1 : (depth + brace_delta c)%Z <> 0%Z).
  { specialize (H 1 ltac:(simpl; lia)). simpl in H. lia. }
  assert (Ht : forall k, 1 <= k <= List.length rest ->
            ((depth + brace_delta c) + depth_of (firstn k rest))%Z <> 0%Z).
  { intros k Hk. specialize (H (S k) ltac:(simpl; lia)). simpl in H. lia. }
  unfold brace_delta in H1, Ht.
  destruct (Ascii.eqb c "{").
  - now apply IH.
  - destruct (Ascii.eqb c "}").
    + replace (depth - 1 =? 0)%Z with false
        by (symmetry; apply Z.eqb_neq; lia).
      apply IH. intros k Hk. specialize (Ht k Hk). lia.
    + apply IH. intros k Hk. specialize (Ht k Hk). lia.
Qed.

(** The loop stops at the first character where the depth is back to zero
    and parses what lies between [start_idx] and that character. *)
Lemma brace_loop_closes (cand post : str) : forall (depth : Z) (idx : nat),
  (0 < depth)%Z ->
  (depth + depth_of cand)%Z = 0%Z ->
  (forall k, 1 <= k < List.length cand ->
             (depth + depth_of (firstn k cand))%Z <> 0%Z) ->
  brace_loop loads cleaned start_idx idx (cand ++ post) depth
  = loads (slice cleaned start_idx (idx + List.length cand)).
Proof.
  induction cand as [|c cand IH]; intros depth idx Hpos Hend Hopen.
  - simpl in Hend. lia.
  - simpl app. simpl brace_loop. simpl in Hend.
    assert (Ht : forall k, 1 <= k < List.length cand ->
              ((depth + brace_delta c) + depth_of (firstn k cand))%Z <> 0%Z).
    { intros k Hk. specialize (Hopen (S k) ltac:(simpl; lia)).
      simpl in Hopen. lia. }
    assert (H1 : cand <> [] -> (depth + brace_delta c)%Z <> 0%Z).
    { intros Hne. specialize (Hopen 1). simpl in Hopen.
      destruct cand; [congruence|]. simpl in Hopen.
      specialize (Hopen ltac:(lia)). lia. }
    replace (idx + List.length (c :: cand))
      with (S idx + List.length cand) by (simpl; lia).
    unfold brace_delta in Hend, Ht, H1.
    destruct (Ascii.eqb c "{").
    + apply IH; [lia | lia | exact Ht].
    + destruct (Ascii.eqb c "}").
      * destruct (depth - 1 =? 0)%Z eqn:Hz.
        -- apply Z.eqb_eq in Hz.
           destruct cand as [|d cand].
           ++ simpl. replace (idx + 1) with (S idx + 0) by lia.
              now destruct (loads _).
           ++ exfalso. apply H1; [discriminate | lia].
        -- apply Z.eqb_neq in Hz.
           apply IH; [lia | lia |].
           intros k Hk. specialize (Ht k Hk). lia.
      * apply IH; [lia | lia |].
        intros k Hk. specialize (Ht k Hk). lia.
Qed.

End Loop.

Lemma not_in_brace_free (s : str) : brace_free s -> ~ In "{"%char s.
Proof.
  intros H Hin. unfold brace_free in H. rewrite Forall_forall in H.
  specialize (H _ Hin). discriminate.
Qed.

(** The first opening brace of a text lies in its cleaned form. *)
Lemma first_brace_split (P M S : str) : forall (a b : str),
  a ++ "{"%char :: b = P ++ M ++ S ->
  ~ In "{"%char a -> brace_free P -> brace_free S ->
  exists a' b', M = a' ++ "{"%char :: b' /\ ~ In "{"%char a' /\ b = b' ++ S.
Proof.
  induction P as [|x P IHP]; intros a b Heq Ha HP HS.
  - simpl in Heq. clear HP. revert a Heq Ha.
    induction M as [|m M IHM]; intros a Heq Ha.
    + exfalso. apply (not_in_brace_free _ HS).
      simpl in Heq. rewrite <- Heq. apply in_elt.
    + destruct a as [|y a]; simpl in Heq; injection Heq as Hm Heq.
      * subst m. exists [], M. repeat split; auto.
      * subst m. destruct (IHM a Heq) as (a' & b' & HM & Ha' & Hb).
        { intros Hin. apply Ha. now right. }
        exists (y :: a'), b'. repeat split; [simpl; now rewrite HM| |exact Hb].
        intros [Hy|Hin]; [apply Ha; now left | now apply Ha'].
  - destruct a as [|y a]; simpl in Heq; injection Heq as Hx Heq.
    + exfalso. apply (not_in_brace_free _ HP). subst x. now left.
    + apply (IHP a b Heq).
      * intros Hin. apply Ha. now right.
      * now inversion HP.
      * exact HS.
Qed.

Lemma firstn_app_short (k : nat) (a b : str) :
  k <= List.length a -> firstn k (a ++ b) = firstn k a.
Proof.
  intros H. rewrite firstn_app.
  replace (k - List.length a) with 0 by lia.
  simpl. apply app_nil_r.
Qed.

(* ----------------------------------------------------------------- *)
(** ** The extractor *)

Lemma never_closed_spec (s : str) :
  never_closed s = true ->
  exists r, s = "{"%char :: r /\
  forall k, 1 <= k <= List.length s -> depth_of (firstn k s) <> 0%Z.
Proof.
  unfold never_closed. intros H. apply andb_true_iff in H as [Hs Ho].
  apply startswith_split in Hs. simpl in Hs.
  exists (skipn 1 s). split; [exact Hs|].
  intros k Hk. now apply open_through_spec with (n := List.length s).
Qed.

Lemma balanced_region_spec (cand : str) :
  balanced_region cand = true ->
  exists r, cand = "{"%char :: r /\ depth_of cand = 0%Z /\
  forall k, 1 <= k < List.length cand -> depth_of (firstn k cand) <> 0%Z.
Proof.
  unfold balanced_region. intros H.
  apply andb_true_iff in H as [H Ho]. apply andb_true_iff in H as [Hs Hd].
  apply startswith_split in Hs. simpl in Hs. apply Z.eqb_eq in Hd.
  exists (skipn 1 cand). repeat split; [exact Hs | exact Hd |].
  intros k Hk.
  apply open_through_spec with (n := List.length cand - 1); [exact Ho | lia].
Qed.

(** When the whole cleaned text does not parse, the result is decided by the
    first balanced region alone. *)
Lemma extract_first_region (loads : str -> option json)
    (text pre cand post : str) :
  clean text = pre ++ cand ++ post ->
  ~ In "{"%char pre ->
  balanced_region cand = true ->
  loads (clean text) = None ->
  _extract_json loads text
  = match loads cand with Some v => Ok v | None => Raise UNPARSABLE end.
Proof.
  intros Hc Hpre Hb Hw.
  destruct (balanced_region_spec _ Hb) as (r & Hr & Hd & Ho).
  unfold _extract_json. rewrite Hw, Hc. subst cand.
  change (pre ++ ("{"%char :: r) ++ post)
    with (pre ++ "{"%char :: (r ++ post)) at 1 2.
  rewrite (find_first _ _ _ Hpre), skipn_length_app.
  simpl brace_loop.
  change (pre ++ "{"%char :: r ++ post)
    with (pre ++ ("{"%char :: r) ++ post).
  rewrite brace_loop_closes.
  - replace (S (List.length pre) + List.length r)
      with (List.length pre + List.length ("{"%char :: r)) by (simpl; lia).
    rewrite slice_middle. now destruct (loads _).
  - lia.
  - change (depth_of ("{"%char :: r)) with (1 + depth_of r)%Z in Hd. exact Hd.
  - intros k Hk. specialize (Ho (S k)).
    change (depth_of (firstn (S k) ("{"%char :: r)))
      with (1 + depth_of (firstn k r))%Z in Ho.
    apply Ho. simpl. lia.
Qed.

(** When the whole cleaned text does not parse and holds no opening brace,
    the extractor reports that no object was found. *)
Lemma extract_no_brace (loads : str -> option json) (text : str) :
  ~ In "{"%char (clean text) ->
  loads (clean text) = None ->
  _extract_json loads text = Raise NO_JSON.
Proof.
  intros Hn Hw. unfold _extract_json. now rewrite Hw, (find_none _ _ Hn).
Qed.

Lemma clean_keeps_absence (text : str) :
  ~ In "{"%char text -> ~ In "{"%char (clean text).
Proof.
  intros Hn Hin. apply Hn.
  destruct (clean_margins text) as (a & b & Ht & _).
  rewrite Ht. apply in_or_app. right. apply in_or_app. now left.
Qed.

Lemma extract_parsed (loads : str -> option json) (text : str) (v : json) :
  loads (clean text) = Some v -> _extract_json loads text = Ok v.
Proof. intros H. unfold _extract_json. now rewrite H. Qed.

(** C10: when the cleaned text (white space trimmed, fence and tag removed)
    is valid JSON of any kind, [_extract_json] returns the result of parsing
    that whole text and does not raise; the brace scan is not consulted. *)
Theorem extract_whole_text (loads : str -> option json) (text : str)
    (v : json) :
  loads (clean text) = Some v -> _extract_json loads text = Ok v.
Proof.
  intros Hwhole. unfold _extract_json.
  destruct (loads (clean text)) as [v'|]; [|discriminate].
  injection Hwhole as ->. reflexivity.
Qed.

Lemma extract_whole_text_witness :
  let text := lit " ```json
[1, null]
``` " in
  JsonReader.loads (clean text) = Some (JArray [JInt 1; JNull])
  /\ _extract_json JsonReader.loads text = Ok (JArray [JInt 1; JNull]).
Proof.
  split; [vm_compute; reflexivity|].
  apply extract_whole_text. vm_compute. reflexivity.
Defined.

(** C3 as stated fails: a text without an opening brace that is valid JSON
    is parsed and returned. *)
Lemma no_brace_counterexample :
  ~ In "{"%char (lit "42")
  /\ _extract_json JsonReader.loads (lit "42") = Ok (JInt 42)
  /\ _extract_json JsonReader.loads (lit "42") <> Raise NO_JSON.
Proof.
  split; [|split].
  - simpl. intros H. repeat (destruct H as [H|H]; [discriminate|]). exact H.
  - vm_compute. reflexivity.
  - vm_compute. discriminate.
Qed.

(** C3, amended: for every input without an opening brace whose cleaned text
    is not valid JSON, the extractor fails with "No JSON object found". *)
Theorem extract_no_brace_fails (loads : str -> option json) (text : str) :
  ~ In "{"%char text ->
  loads (clean text) = None ->
  _extract_json loads text = Raise NO_JSON.
Proof.
  intros Hn Hw. apply extract_no_brace; [|exact Hw].
  now apply clean_keeps_absence.
Qed.

Lemma extract_no_brace_fails_witness :
  ~ In "{"%char (lit "no topic today")
  /\ JsonReader.loads (clean (lit "no topic today")) = None
  /\ _extract_json JsonReader.loads (lit "no topic today") = Raise NO_JSON.
Proof.
  assert (Hn : ~ In "{"%char (lit "no topic today")).
  { simpl. intros H. repeat (destruct H as [H|H]; [discriminate|]). exact H. }
  split; [exact Hn|]. split; [vm_compute; reflexivity|].
  apply extract_no_brace_fails; [exact Hn | vm_compute; reflexivity].
Defined.

(** C4 as stated fails: an opening brace inside a JSON string is never
    closed, and the text is returned parsed all the same. *)
Lemma never_closed_counterexample :
  never_closed (q "{'a':'{'}") = true
  /\ _extract_json JsonReader.loads (q "{'a':'{'}")
     = Ok (JObject [(lit "a", JString (lit "{"))])
  /\ _extract_json JsonReader.loads (q "{'a':'{'}") <> Raise UNPARSABLE.
Proof.
  split; [|split]; vm_compute; [reflexivity | reflexivity | discriminate].
Qed.

(** C4, amended: for every input whose first opening brace is never closed
    and whose cleaned text is not valid JSON, the extractor fails with
    "Unable to parse JSON from response text". *)
Theorem extract_never_closed_fails (loads : str -> option json)
    (text pre rest : str) :
  text = pre ++ rest ->
  ~ In "{"%char pre ->
  never_closed rest = true ->
  loads (clean text) = None ->
  _extract_json loads text = Raise UNPARSABLE.
Proof.
  intros Ht Hpre Hnc Hw.
  destruct (never_closed_spec _ Hnc) as (r & Hr & Ho).
  destruct (clean_margins text) as (P & S & Hm & HP & HS).
  rewrite Ht in Hm at 1. rewrite Hr in Hm.
  destruct (first_brace_split _ _ _ _ _ Hm Hpre HP HS)
    as (a' & b' & Hc & Ha' & Hb).
  unfold _extract_json. rewrite Hw, Hc.
  rewrite (find_first _ _ _ Ha'), skipn_length_app.
  rewrite brace_loop_open; [reflexivity|].
  intros k Hk. rewrite Z.add_0_l.
  specialize (Ho k). rewrite Hr, Hb in Ho.
  change ("{"%char :: b' ++ S) with (("{"%char :: b') ++ S) in Ho.
  rewrite length_app in Ho. rewrite firstn_app_short in Ho by lia.
  apply Ho. lia.
Qed.

Lemma extract_never_closed_fails_witness :
  let text := q "Here it is: {'title': 'T', 'abstract': {" in
  text = lit "Here it is: " ++ q "{'title': 'T', 'abstract': {"
  /\ _extract_json JsonReader.loads text = Raise UNPARSABLE.
Proof.
  split; [reflexivity|].
  apply extract_never_closed_fails
    with (pre := lit "Here it is: ") (rest := q "{'title': 'T', 'abstract': {").
  - reflexivity.
  - simpl. intros H. repeat (destruct H as [H|H]; [discriminate|]). exact H.
  - vm_compute. reflexivity.
  - vm_compute. reflexivity.
Defined.

(** C2: when the whole cleaned text does not parse, only the first balanced
    top-level region found by brace counting is tried; when that candidate
    does not parse the extractor fails with "Unable to parse JSON from
    response text", whatever [json.loads] would answer on a later object. *)
Theorem extract_first_region_only (loads : str -> option json)
    (text pre cand post : str) :
  clean text = pre ++ cand ++ post ->
  ~ In "{"%char pre ->
  balanced_region cand = true ->
  loads (clean text) = None ->
  loads cand = None ->
  _extract_json loads text = Raise UNPARSABLE.
Proof.
  intros Hc Hpre Hb Hw Hcand.
  rewrite (extract_first_region _ _ _ _ _ Hc Hpre Hb Hw). now rewrite Hcand.
Qed.

Lemma extract_first_region_only_witness :
  let text := q "{a} then {'title': 'T'}" in
  JsonReader.loads (q "{'title': 'T'}") = Some (JObject [(lit "title", JString (lit "T"))])
  /\ _extract_json JsonReader.loads text = Raise UNPARSABLE.
Proof.
  split; [vm_compute; reflexivity|].
  apply extract_first_region_only
    with (pre := []) (cand := lit "{a}") (post := q " then {'title': 'T'}").
  - vm_compute. reflexivity.
  - intros H. exact H.
  - vm_compute. reflexivity.
  - vm_compute. reflexivity.
  - vm_compute. reflexivity.
Defined.

(* ----------------------------------------------------------------- *)
(** ** Fenced replies *)

Lemma firm_app_r (p : ascii -> bool) (s t : str) :
  firm p s -> firm p (s ++ t).
Proof. destruct s; simpl; tauto. Qed.

Lemma firm_app_l (p q : ascii -> bool) (a s : str) :
  (forall c, q c = true -> p c = false) ->
  all_of q a -> firm p s -> firm p (a ++ s).
Proof.
  intros Hq Ha Hs. destruct a as [|x a]; simpl; [exact Hs|].
  inversion Ha; subst. now apply Hq.
Qed.

Lemma space_not_backtick (c : ascii) :
  isspace c = true -> mem c (lit "`") = false.
Proof.
  intros H. unfold mem. simpl. rewrite orb_false_r.
  destruct (Ascii.eqb c "`") eqn:E; [|reflexivity].
  apply Ascii.eqb_eq in E. subst. discriminate.
Qed.

Section Fences.

Variables (s a core b mid : str).
Hypothesis Hs : s = a ++ core ++ b.
Hypothesis Ha : all_of isspace a.
Hypothesis Hb : all_of isspace b.
Hypothesis Hcore : core = "{"%char :: mid ++ ["}"%char].

Lemma core_firm (p : ascii -> bool) :
  p "{"%char = false -> p "}"%char = false ->
  firm p core /\ firm p (rev core).
Proof.
  intros H1 H2. rewrite Hcore. split; [exact H1|].
  simpl. rewrite rev_app_distr. exact H2.
Qed.

Lemma strip_document : strip s = core.
Proof.
  rewrite Hs. destruct (core_firm isspace eq_refl eq_refl).
  now apply strip_by_core.
Qed.

Lemma strip_tagged : strip (lit "json" ++ s) = lit "json" ++ a ++ core.
Proof.
  rewrite Hs.
  replace (lit "json" ++ a ++ core ++ b)
    with ([] ++ (lit "json" ++ a ++ core) ++ b)
    by (simpl; now rewrite <- !app_assoc).
  apply strip_by_core; [constructor | exact Hb | reflexivity |].
  rewrite !rev_app_distr. rewrite <- app_assoc. apply firm_app_r.
  now apply core_firm.
Qed.

Lemma strip_led : strip (a ++ core) = core.
Proof.
  replace (a ++ core) with (a ++ core ++ []) by now rewrite app_nil_r.
  destruct (core_firm isspace eq_refl eq_refl).
  apply strip_by_core; [exact Ha | constructor | assumption | assumption].
Qed.

Lemma document_firm (tag : str) :
  tag = [] \/ tag = lit "json" ->
  firm (fun c => mem c (lit "`")) (tag ++ s)
  /\ firm (fun c => mem c (lit "`")) (rev (tag ++ s)).
Proof.
  intros Htag.
  destruct (core_firm (fun c => mem c (lit "`")) eq_refl eq_refl) as [H1 H2].
  split.
  - destruct Htag as [-> | ->]; [|reflexivity].
    rewrite Hs. simpl.
    apply firm_app_l with (q := isspace);
      [exact space_not_backtick | exact Ha | now apply firm_app_r].
  - rewrite Hs, !rev_app_distr, <- !app_assoc.
    apply firm_app_l with (q := isspace);
      [exact space_not_backtick | now apply Forall_rev |].
    now apply firm_app_r.
Qed.

Lemma clean_bare : clean s = core.
Proof.
  unfold clean. rewrite strip_document. rewrite Hcore. reflexivity.
Qed.

Lemma clean_fenced (ws1 ws2 tag : str) :
  all_of isspace ws1 -> all_of isspace ws2 ->
  tag = [] \/ tag = lit "json" ->
  clean (ws1 ++ FENCE ++ tag ++ s ++ FENCE ++ ws2) = core.
Proof.
  intros H1 H2 Htag. unfold clean.
  assert (Hstrip : strip (ws1 ++ FENCE ++ tag ++ s ++ FENCE ++ ws2)
                   = FENCE ++ (tag ++ s) ++ FENCE).
  { replace (ws1 ++ FENCE ++ tag ++ s ++ FENCE ++ ws2)
      with (ws1 ++ (FENCE ++ (tag ++ s) ++ FENCE) ++ ws2)
      by now rewrite <- !app_assoc.
    apply strip_by_core; [exact H1 | exact H2 | reflexivity |].
    rewrite !rev_app_distr. reflexivity. }
  rewrite Hstrip.
  rewrite startswith_app.
  assert (Hend : endswith FENCE (FENCE ++ (tag ++ s) ++ FENCE) = true).
  { unfold endswith. rewrite app_assoc, rev_app_distr. apply startswith_app. }
  rewrite Hend. simpl andb. cbv iota.
  destruct (document_firm tag Htag) as [Hf1 Hf2].
  assert (Hticks : strip_chars (lit "`") (FENCE ++ (tag ++ s) ++ FENCE)
                   = tag ++ s).
  { apply strip_by_core; [repeat constructor | repeat constructor | | ];
      assumption. }
  rewrite Hticks.
  destruct Htag as [-> | ->].
  - simpl app. rewrite strip_document. rewrite Hcore. reflexivity.
  - rewrite strip_tagged, startswith_app.
    change (skipn 4 (lit "json" ++ a ++ core)) with (a ++ core).
    apply strip_led.
Qed.

End Fences.

Lemma clean_wrapping (s text mid : str) :
  strip s = "{"%char :: mid ++ ["}"%char] ->
  wrapping s text -> clean text = strip s.
Proof.
  intros Hcore Hw.
  destruct (strip_by_split isspace s) as (a & b & Hs & Ha & Hb).
  fold (strip s) in Hs.
  destruct Hw as [|ws1 ws2 tag H1 H2 Htag].
  - now apply clean_bare with (a := a) (b := b) (mid := mid).
  - now apply clean_fenced with (a := a) (b := b) (mid := mid).
Qed.

(** C1: for every text [s] that is a valid JSON object, given bare or wrapped
    in a triple-backtick fence with or without the [json] tag, the extractor
    succeeds and returns the value [json.loads] gives for [s]. *)
Theorem extract_wrapped_object (loads : str -> option json)
    (s text : str) (m : list (str * json)) :
  loads_laws loads ->
  loads s = Some (JObject m) ->
  wrapping s text ->
  _extract_json loads text = Ok (JObject m).
Proof.
  intros Hlaws Hv Hw. apply extract_parsed.
  destruct (loads_object _ Hlaws s m Hv) as (mid & Hcore).
  rewrite (clean_wrapping s text mid Hcore Hw).
  now apply (loads_strip _ Hlaws).
Qed.

(* ----------------------------------------------------------------- *)
(** ** The reference reader obeys the laws of [json.loads] *)

Module JsonReaderFacts.
Import JsonReader.

Ltac by_cases_on c :=
  destruct c as [[|] [|] [|] [|] [|] [|] [|] [|]]; vm_compute;
  intros; congruence.

Lemma ws_is_space (c : ascii) : is_ws c = true -> isspace c = true.
Proof. by_cases_on c. Qed.

Lemma digit_not_space (c : ascii) : is_digit c = true -> isspace c = false.
Proof. by_cases_on c. Qed.

Lemma not_space_not_ws (c : ascii) : isspace c = false -> is_ws c = false.
Proof. by_cases_on c. Qed.

Lemma tail_of_refl (t : str) : tail_of t t.
Proof. now exists []. Qed.

Lemma tail_of_cons (x : ascii) (t s : str) : tail_of t s -> tail_of t (x :: s).
Proof. intros (c & ->). now exists (x :: c). Qed.

Lemma tail_of_trans (t u s : str) : tail_of t u -> tail_of u s -> tail_of t s.
Proof.
  intros (c & ->) (d & ->). exists (d ++ c). now rewrite app_assoc.
Qed.

Lemma tail_of_drop (x : ascii) (t s : str) : tail_of (x :: t) s -> tail_of t s.
Proof.
  intros (c & ->). exists (c ++ [x]). now rewrite <- app_assoc.
Qed.

Lemma tail_of_skip (p : ascii -> bool) (t s : str) :
  tail_of t (dropwhile p s) -> tail_of t s.
Proof.
  intros H. apply tail_of_trans with (u := dropwhile p s); [exact H|].
  destruct (dropwhile_split p s) as (a & Hs & _). now exists a.
Qed.

Lemma tail_of_app (a t : str) : tail_of t (a ++ t).
Proof. now exists a. Qed.

Create HintDb tails.
#[local] Hint Resolve tail_of_refl tail_of_cons tail_of_drop tail_of_app
  : tails.

Lemma eats_cons (x : ascii) (s r : str) : eats s r -> eats (x :: s) r.
Proof. intros (y & Hy & Ht). exists y. auto with tails. Qed.

Lemma eats_trans (s u r : str) : tail_of u s -> eats u r -> eats s r.
Proof.
  intros Hu (y & Hy & Ht). exists y. split; [exact Hy|].
  now apply tail_of_trans with (u := u).
Qed.

Lemma eats_tail (s r : str) : eats s r -> tail_of r s.
Proof. intros (y & _ & Ht). now apply tail_of_drop with (x := y). Qed.

Lemma span_spec (p : ascii -> bool) (s a b : str) :
  span p s = (a, b) -> s = a ++ b /\ all_of p a.
Proof.
  revert a b. induction s as [|c s IH]; intros a b H; simpl in H.
  - injection H as <- <-. split; [reflexivity | constructor].
  - destruct (p c) eqn:Hc.
    + destruct (span p s) as [a' b'] eqn:Hsp. injection H as <- <-.
      destruct (IH a' b' eq_refl) as [-> Ha]. split; [reflexivity|].
      now constructor.
    + injection H as <- <-. split; [reflexivity | constructor].
Qed.

Lemma digits1_eats (s ds r : str) : digits1 s = Some (ds, r) -> eats s r.
Proof.
  unfold digits1. destruct (span is_digit s) as [a b] eqn:Hsp.
  destruct a as [|d a]; [discriminate|]. intros H. injection H as <- <-.
  destruct (span_spec _ _ _ _ Hsp) as [-> Hall].
  destruct (@exists_last _ (d :: a) ltac:(discriminate)) as (c & y & Hcy).
  rewrite Hcy in *. exists y. split.
  - apply digit_not_space. unfold all_of in Hall.
    rewrite Forall_forall in Hall. apply Hall.
    apply in_or_app. right. now left.
  - exists c. now rewrite <- app_assoc.
Qed.

Lemma int_part_eats (s ip r : str) : int_part s = Some (ip, r) -> eats s r.
Proof.
  unfold int_part. destruct s as [|c s]; [discriminate|].
  destruct (Ascii.eqb c "0") eqn:Hc.
  - intros H. injection H as <- <-. apply Ascii.eqb_eq in Hc. subst c.
    exists "0"%char. split; [reflexivity | apply tail_of_refl].
  - apply digits1_eats.
Qed.

Lemma frac_part_eats (s fp r : str) :
  frac_part s = (fp, r) -> s = r \/ eats s r.
Proof.
  unfold frac_part. destruct s as [|c s]; [intros H; injection H; auto|].
  destruct (Ascii.eqb c ".").
  - destruct (digits1 s) as [[ds r']|] eqn:Hd.
    + intros H. injection H as <- <-. right.
      apply eats_cons. eapply digits1_eats; eauto.
    + intros H. injection H; auto.
  - intros H. injection H; auto.
Qed.

Lemma exp_part_eats (s ep r : str) :
  exp_part s = (ep, r) -> s = r \/ eats s r.
Proof.
  unfold exp_part. destruct s as [|c s]; [intros H; injection H; auto|].
  destruct (Ascii.eqb c "e" || Ascii.eqb c "E").
  - destruct s as [|g s0].
    + simpl. intros H. injection H; auto.
    + destruct (Ascii.eqb g "+" || Ascii.eqb g "-").
      * destruct (digits1 s0) as [[ds r']|] eqn:Hd.
        -- intros H. injection H as <- <-. right.
           do 2 apply eats_cons. eapply digits1_eats; eauto.
        -- intros H. injection H; auto.
      * destruct (digits1 (g :: s0)) as [[ds r']|] eqn:Hd.
        -- intros H. injection H as <- <-. right.
           apply eats_cons. eapply digits1_eats; eauto.
        -- intros H. injection H; auto.
  - intros H. injection H; auto.
Qed.

Lemma eats_more (s u r : str) : eats s u -> u = r \/ eats u r -> eats s r.
Proof.
  intros H [<- | H']; [exact H|].
  apply eats_trans with (u := u); [now apply eats_tail | exact H'].
Qed.

Lemma read_number_eats (s r : str) (v : json) :
  read_number s = Some (v, r) -> eats s r /\ is_number v.
Proof.
  unfold read_number.
  set (signed := match s with
                 | [] => ([], s)
                 | c :: r0 => if Ascii.eqb c "-" then ([c], r0) else ([], s)
                 end).
  assert (Hsigned : tail_of (snd signed) s).
  { subst signed. destruct s as [|c r0]; [apply tail_of_refl|].
    destruct (Ascii.eqb c "-"); simpl; auto with tails. }
  destruct signed as [sign s1]. simpl in Hsigned.
  destruct (int_part s1) as [[ip s2]|] eqn:Hi; [|discriminate].
  destruct (frac_part s2) as [fp s3] eqn:Hf.
  destruct (exp_part s3) as [ep s4] eqn:He.
  assert (Heats : eats s s4).
  { apply eats_trans with (u := s1); [exact Hsigned|].
    apply eats_more with (u := s3); [|eapply exp_part_eats; eauto].
    apply eats_more with (u := s2); [|eapply frac_part_eats; eauto].
    eapply int_part_eats; eauto. }
  destruct fp, ep; intros H; injection H as <- <-; split;
    (exact Heats || exact I).
Qed.

Lemma keyword_eats (w : string) (v v' : json) (s r : str) :
  firm isspace (rev (lit w)) ->
  keyword w v s = Some (v', r) -> eats s r /\ v' = v.
Proof.
  unfold keyword. intros Hw.
  destruct (startswith (lit w) s) eqn:Hs; [|discriminate].
  intros H. injection H as <- <-. split; [|reflexivity].
  apply startswith_split in Hs.
  destruct (firm_cons _ _ Hw) as (y & t & Hrev & Hy).
  assert (Hlit : lit w = rev t ++ [y]).
  { rewrite <- (rev_involutive (lit w)), Hrev. reflexivity. }
  exists y. split; [exact Hy|].
  exists (rev t). rewrite Hs at 1. rewrite Hlit at 1.
  now rewrite <- app_assoc.
Qed.

Lemma push_some (x : ascii) (o : option (str * str)) (body r : str) :
  push x o = Some (body, r) -> exists body', o = Some (body', r).
Proof.
  destruct o as [[b r']|]; simpl; [|discriminate].
  intros H. injection H as <- <-. now exists b.
Qed.

Lemma read_string_tail (n : nat) : forall (s body r : str),
  List.length s <= n ->
  read_string s = Some (body, r) -> tail_of ("034"%char :: r) s.
Proof.
  induction n as [|n IH]; intros s body r Hn H.
  - destruct s; [discriminate | simpl in Hn; lia].
  - destruct s as [|c s]; [discriminate|]. simpl in Hn. simpl in H.
    destruct (Ascii.eqb c "034") eqn:Hq.
    + apply Ascii.eqb_eq in Hq. subst c. injection H as <- <-.
      apply tail_of_refl.
    + apply tail_of_cons.
      destruct (Ascii.eqb c "\").
      * destruct s as [|e s2]; [discriminate|]. simpl in Hn.
        apply tail_of_cons.
        destruct (escape e).
        -- apply push_some in H as (b' & H). refine (IH _ _ _ _ H); lia.
        -- destruct (Ascii.eqb e "u"); [|discriminate].
           destruct s2 as [|h1 [|h2 [|h3 [|h4 s3]]]]; try discriminate.
           simpl in Hn.
           destruct (hex4 h1 h2 h3 h4) as [k|]; [|discriminate].
           destruct (k <=? 255); [|discriminate].
           apply push_some in H as (b' & H).
           do 4 apply tail_of_cons. refine (IH _ _ _ _ H); lia.
      * destruct (code c <? 32); [discriminate|].
        apply push_some in H as (b' & H). refine (IH _ _ _ _ H); lia.
Qed.


Lemma skip_tail (r t : str) : skip_ws r = t -> tail_of t r.
Proof.
  intros <-. apply tail_of_skip with (p := is_ws). apply tail_of_refl.
Qed.

(** Whatever the reader takes for a value ends in a character that is not
    white space, and in a closing brace when the value is an object. *)
Lemma read_sound (f : nat) :
  (forall s v r, read_value f s = Some (v, r) ->
     eats s r /\ (forall m, v = JObject m -> tail_of ("}"%char :: r) s))
  /\ (forall acc s m r, read_members f acc s = Some (m, r) ->
        tail_of ("}"%char :: r) s)
  /\ (forall acc s l r, read_items f acc s = Some (l, r) ->
        tail_of ("]"%char :: r) s).
Proof.
  induction f as [|f (IHv & IHm & IHi)].
  - repeat split; intros; discriminate.
  - split; [|split].
    + intros s v r H. cbn [read_value] in H.
      destruct s as [|c s0]; [discriminate|].
      destruct (Ascii.eqb c "034") eqn:E1.
      { apply Ascii.eqb_eq in E1; subst c.
        destruct (read_string s0) as [[body r']|] eqn:Hs; [|discriminate].
        injection H as <- <-. split; [|discriminate].
        exists "034"%char. split; [reflexivity|].
        apply tail_of_cons. eapply read_string_tail; eauto. }
      destruct (Ascii.eqb c "{") eqn:E2.
      { apply Ascii.eqb_eq in E2; subst c.
        destruct (skip_ws s0) as [|d r'] eqn:Hsk; [discriminate|].
        assert (Ht : tail_of ("}"%char :: r) ("{"%char :: s0)).
        { apply tail_of_cons.
          apply tail_of_trans with (u := d :: r'); [|now apply skip_tail].
          destruct (Ascii.eqb d "}") eqn:E.
          - apply Ascii.eqb_eq in E; subst d. injection H as <- <-.
            apply tail_of_refl.
          - destruct (read_members f [] (d :: r')) as [[m r2]|] eqn:Hm;
              [|discriminate].
            injection H as <- <-. eapply IHm; eauto. }
        split; [|intros; exact Ht].
        exists "}"%char. split; [reflexivity | exact Ht]. }
      destruct (Ascii.eqb c "[") eqn:E3.
      { apply Ascii.eqb_eq in E3; subst c.
        destruct (skip_ws s0) as [|d r'] eqn:Hsk; [discriminate|].
        assert (Ht : tail_of ("]"%char :: r) ("["%char :: s0)
                     /\ exists l, v = JArray l).
        { destruct (Ascii.eqb d "]") eqn:E.
          - apply Ascii.eqb_eq in E; subst d. injection H as <- <-.
            split; [|now exists []].
            apply tail_of_cons. now apply skip_tail.
          - destruct (read_items f [] (d :: r')) as [[l r2]|] eqn:Hi;
              [|discriminate].
            injection H as <- <-. split; [|now exists l].
            apply tail_of_cons.
            apply tail_of_trans with (u := d :: r'); [|now apply skip_tail].
            eapply IHi; eauto. }
        destruct Ht as (Ht & l & ->). split; [|discriminate].
        exists "]"%char. split; [reflexivity | exact Ht]. }
      assert (Hkw : forall w v0, firm isspace (rev (lit w)) ->
                keyword w v0 (c :: s0) = Some (v, r) ->
                (forall m, v0 <> JObject m) ->
                eats (c :: s0) r
                /\ (forall m, v = JObject m ->
                              tail_of ("}"%char :: r) (c :: s0))).
      { intros w v0 Hw Hk Hv0. apply keyword_eats in Hk as [He ->];
          [|exact Hw].
        split; [exact He|]. intros m Hm. now apply Hv0 in Hm. }
      destruct (Ascii.eqb c "n");
        [apply Hkw in H; [exact H | reflexivity | discriminate]|].
      destruct (Ascii.eqb c "t");
        [apply Hkw in H; [exact H | reflexivity | discriminate]|].
      destruct (Ascii.eqb c "f");
        [apply Hkw in H; [exact H | reflexivity | discriminate]|].
      destruct (Ascii.eqb c "N");
        [apply Hkw in H; [exact H | reflexivity | discriminate]|].
      destruct (Ascii.eqb c "I");
        [apply Hkw in H; [exact H | reflexivity | discriminate]|].
      destruct (read_number (c :: s0)) as [[v' r']|] eqn:Hn.
      * injection H as <- <-. apply read_number_eats in Hn as [He Hnum].
        split; [exact He|]. intros m ->. destruct Hnum.
      * apply Hkw in H; [exact H | reflexivity | discriminate].
    + intros acc s m r H. cbn [read_members] in H.
      destruct s as [|c r0]; [discriminate|].
      destruct (Ascii.eqb c "034"); [|discriminate].
      destruct (read_string r0) as [[key r1]|] eqn:Hs; [|discriminate].
      destruct (skip_ws r1) as [|d r2] eqn:Hk1; [discriminate|].
      destruct (Ascii.eqb d ":"); [|discriminate].
      destruct (read_value f (skip_ws r2)) as [[v r3]|] eqn:Hv;
        [|discriminate].
      destruct (skip_ws r3) as [|e r4] eqn:Hk3; [discriminate|].
      assert (Hchain : tail_of (e :: r4) (c :: r0)).
      { apply tail_of_cons.
        apply tail_of_trans with (u := r1);
          [|eapply tail_of_drop, read_string_tail; eauto].
        apply tail_of_trans with (u := r2);
          [|eapply tail_of_drop, skip_tail; eauto].
        apply tail_of_trans with (u := r3); [now apply skip_tail|].
        apply tail_of_trans with (u := skip_ws r2); [|now apply skip_tail].
        apply eats_tail. now apply (proj1 (IHv _ _ _ Hv)). }
      destruct (Ascii.eqb e "}") eqn:E.
      * apply Ascii.eqb_eq in E; subst e. injection H as <- <-. exact Hchain.
      * destruct (Ascii.eqb e ","); [|discriminate].
        apply tail_of_trans with (u := r4);
          [|eapply tail_of_drop; eauto].
        apply tail_of_trans with (u := skip_ws r4); [|now apply skip_tail].
        eapply IHm; eauto.
    + intros acc s l r H. cbn [read_items] in H.
      destruct (read_value f s) as [[v r1]|] eqn:Hv; [|discriminate].
      destruct (skip_ws r1) as [|e r2] eqn:Hk; [discriminate|].
      assert (Hchain : tail_of (e :: r2) s).
      { apply tail_of_trans with (u := r1); [now apply skip_tail|].
        apply eats_tail. now apply (proj1 (IHv _ _ _ Hv)). }
      destruct (Ascii.eqb e "]") eqn:E.
      * apply Ascii.eqb_eq in E; subst e. injection H as <- <-. exact Hchain.
      * destruct (Ascii.eqb e ","); [|discriminate].
        apply tail_of_trans with (u := r2);
          [|eapply tail_of_drop; eauto].
        apply tail_of_trans with (u := skip_ws r2); [|now apply skip_tail].
        eapply IHi; eauto.
Qed.


Lemma read_value_head (f : nat) (x : ascii) (s r : str) (v : json) :
  read_value f (x :: s) = Some (v, r) -> isspace x = false.
Proof.
  intros H. destruct (isspace x) eqn:Hx; [exfalso | reflexivity].
  destruct f as [|f]; [discriminate|].
  destruct x as [[|] [|] [|] [|] [|] [|] [|] [|]];
    vm_compute in Hx; try discriminate Hx;
    vm_compute in H; discriminate H.
Qed.

Lemma read_value_object_head (f : nat) (s r : str) (m : list (str * json)) :
  read_value f s = Some (JObject m, r) -> exists s', s = "{"%char :: s'.
Proof.
  intros H. destruct f as [|f]; [discriminate|]. cbn [read_value] in H.
  destruct s as [|c s0]; [discriminate|].
  destruct (Ascii.eqb c "034").
  { destruct (read_string s0) as [[body r']|]; discriminate. }
  destruct (Ascii.eqb c "{") eqn:E.
  { apply Ascii.eqb_eq in E. subst c. now exists s0. }
  exfalso.
  destruct (Ascii.eqb c "[").
  { destruct (skip_ws s0) as [|d r']; [discriminate|].
    destruct (Ascii.eqb d "]"); [discriminate|].
    destruct (read_items f [] (d :: r')) as [[l r2]|]; discriminate. }
  assert (Hkw : forall w v0, firm isspace (rev (lit w)) ->
            keyword w v0 (c :: s0) = Some (JObject m, r) ->
            JObject m <> v0 -> False).
  { intros w v0 Hw Hk Hv0. apply keyword_eats in Hk as [_ Hk]; auto. }
  destruct (Ascii.eqb c "n");
    [apply Hkw in H; [exact H | reflexivity | discriminate]|].
  destruct (Ascii.eqb c "t");
    [apply Hkw in H; [exact H | reflexivity | discriminate]|].
  destruct (Ascii.eqb c "f");
    [apply Hkw in H; [exact H | reflexivity | discriminate]|].
  destruct (Ascii.eqb c "N");
    [apply Hkw in H; [exact H | reflexivity | discriminate]|].
  destruct (Ascii.eqb c "I");
    [apply Hkw in H; [exact H | reflexivity | discriminate]|].
  destruct (read_number (c :: s0)) as [[v' r']|] eqn:Hn.
  - injection H as -> ->. apply read_number_eats in Hn as [_ Hnum].
    exact Hnum.
  - apply Hkw in H; [exact H | reflexivity | discriminate].
Qed.

(** What [loads] accepts: the document between the white space. *)
Lemma loads_document (s : str) (v : json) :
  loads s = Some v ->
  exists doc a b,
    s = a ++ doc ++ b /\ all_of isspace a /\ all_of isspace b
    /\ firm isspace doc /\ firm isspace (rev doc)
    /\ read_value (2 * List.length doc + 2) doc = Some (v, []).
Proof.
  unfold loads. intros H.
  destruct (strip_by_split is_ws s) as (a & b & Hs & Ha & Hb).
  set (doc := strip_by is_ws s) in *.
  destruct (read_value (2 * List.length doc + 2) doc) as [[v' r]|] eqn:Hr;
    [|discriminate].
  destruct r; [|discriminate]. injection H as ->.
  exists doc, a, b. repeat split; try assumption.
  - eapply Forall_impl; [|exact Ha]. exact ws_is_space.
  - eapply Forall_impl; [|exact Hb]. exact ws_is_space.
  - destruct doc as [|x d]; [destruct (2 * 0 + 2); discriminate|].
    simpl. eapply read_value_head; eauto.
  - destruct (proj1 (proj1 (read_sound _) _ _ _ Hr)) as (y & Hy & c & Hc).
    rewrite Hc, rev_app_distr. exact Hy.
Qed.

Lemma loads_firm_document (doc : str) (v : json) :
  firm isspace doc -> firm isspace (rev doc) ->
  read_value (2 * List.length doc + 2) doc = Some (v, []) ->
  loads doc = Some v.
Proof.
  intros Hh Hl Hr. unfold loads.
  assert (Hd : strip_by is_ws doc = doc).
  { replace doc with ([] ++ doc ++ []) at 1 by (simpl; apply app_nil_r).
    apply strip_by_core; try constructor.
    - destruct doc; simpl in *; [tauto | now apply not_space_not_ws].
    - destruct (rev doc); simpl in *; [tauto | now apply not_space_not_ws]. }
  rewrite Hd, Hr. reflexivity.
Qed.

(** The reference reader is one of the readers the extractor is specified
    for. *)
Lemma reader_laws : loads_laws loads.
Proof.
  constructor.
  - intros s v H.
    destruct (loads_document s v H) as (doc & a & b & Hs & Ha & Hb & Hh & Hl & Hr).
    assert (Hstrip : strip s = doc) by (rewrite Hs; now apply strip_by_core).
    rewrite Hstrip. now apply loads_firm_document.
  - intros s m H.
    destruct (loads_document s _ H) as (doc & a & b & Hs & Ha & Hb & Hh & Hl & Hr).
    assert (Hstrip : strip s = doc) by (rewrite Hs; now apply strip_by_core).
    rewrite Hstrip.
    destruct (read_value_object_head _ _ _ _ Hr) as (s' & Hdoc).
    destruct (proj2 (proj1 (read_sound _) _ _ _ Hr) m eq_refl) as (c & Hc).
    rewrite Hdoc in Hc. destruct c as [|x c]; [discriminate|].
    injection Hc as <- ->. now exists c.
Qed.

End JsonReaderFacts.

Lemma extract_wrapped_object_witness :
  let s := q "
{'email_subject':'S','email_body':'B'}
" in
  let text := lit "```json" ++ s ++ lit "```" in
  let v := JObject [(lit "email_subject", JString (lit "S"));
                    (lit "email_body", JString (lit "B"))] in
  JsonReader.loads s = Some v
  /\ _extract_json JsonReader.loads text = Ok v.
Proof.
  intros s text v.
  assert (Hv : JsonReader.loads s = Some v) by (vm_compute; reflexivity).
  split; [exact Hv|].
  apply extract_wrapped_object with (s := s).
  - exact JsonReaderFacts.reader_laws.
  - exact Hv.
  - change text with ([] ++ FENCE ++ lit "json" ++ s ++ FENCE ++ []).
    apply fenced; [constructor | constructor | now right].
Defined.

(* ----------------------------------------------------------------- *)
(** ** The article file name *)

Lemma str_eqb_single (c d : ascii) : str_eqb [c] [d] = Ascii.eqb c d.
Proof.
  unfold str_eqb. destruct (list_eq_dec ascii_dec [c] [d]) as [H|H].
  - injection H as ->. symmetry. apply Ascii.eqb_refl.
  - destruct (Ascii.eqb c d) eqn:E; [|reflexivity].
    apply Ascii.eqb_eq in E. subst. congruence.
Qed.

Lemma keeps_single (c : ascii) : keeps [c] = allowed c.
Proof.
  unfold keeps, allowed, str_isalnum. simpl forallb.
  change (lit " ") with [" "%char]. change (lit "_") with ["_"%char].
  change (lit "-") with ["-"%char].
  now rewrite !str_eqb_single, andb_true_r.
Qed.

Lemma join_kept_chars (title : str) :
  join_kept (map (fun c => JString [c]) title) = Ok (filter allowed title).
Proof.
  induction title as [|c title IH]; simpl; [reflexivity|].
  rewrite keeps_single, IH. now destruct (allowed c).
Qed.

Lemma safe_title_text (title : str) :
  safe_title (JString title) = Ok (strip (filter allowed title)).
Proof. unfold safe_title. simpl. now rewrite join_kept_chars. Qed.

Lemma sanitize_chars (title : str) :
  Forall (fun c => isalnum c = true \/ c = "_"%char \/ c = "-"%char)
         (sanitize title).
Proof.
  unfold sanitize, replace. apply Forall_forall. intros x Hx.
  apply in_map_iff in Hx as (c & <- & Hc).
  apply strip_by_In, filter_In in Hc as [_ Hc].
  destruct (Ascii.eqb c " ") eqn:E; [auto|].
  unfold allowed in Hc. rewrite E in Hc.
  rewrite orb_false_r in Hc.
  apply orb_true_iff in Hc as [Hc|Hc]; [|apply Ascii.eqb_eq in Hc; auto].
  apply orb_true_iff in Hc as [Hc|Hc]; [auto | apply Ascii.eqb_eq in Hc; auto].
Qed.

(** C7: for every title the article file is named
    [<date>_<sanitized title>.txt], where the sanitized title keeps only
    alphanumeric characters, spaces, underscores and hyphens, is trimmed, and
    has its spaces replaced by underscores; the title [A/B: Test?] gives the
    stem [AB_Test]. *)
Theorem article_filename_sanitized :
  (forall date title : str,
     rbind (safe_title (JString title))
           (fun safe => Ok (article_filename date safe))
     = Ok (date ++ lit "_" ++ sanitize title ++ lit ".txt")
     /\ Forall (fun c => isalnum c = true \/ c = "_"%char \/ c = "-"%char)
               (sanitize title))
  /\ sanitize (lit "A/B: Test?") = lit "AB_Test"
  /\ rbind (safe_title (JString (lit "A/B: Test?")))
           (fun safe => Ok (article_filename (lit "2024-05-17") safe))
     = Ok (lit "2024-05-17_AB_Test.txt").
Proof.
  split; [|split].
  - intros date title. split; [|apply sanitize_chars].
    rewrite safe_title_text. reflexivity.
  - vm_compute. reflexivity.
  - vm_compute. reflexivity.
Qed.

(* ----------------------------------------------------------------- *)
(** ** What a computation does to the world *)

Lemma calm_refl (w : World) : calm_step w w.
Proof. exists []. now rewrite app_nil_r. Qed.

Lemma calm_emit (ev : event) (w : World) :
  is_write ev = false -> is_notify ev = false -> calm_step w (emit ev w).
Proof.
  intros H1 H2. exists [ev]. simpl. rewrite H1, H2. auto.
Qed.

Lemma calm_idle (w w' : World) : calm_step w w' -> idle_step w w'.
Proof. intros (ad & Ht & Hw & _ & Hf). now exists ad. Qed.

Lemma calm_quiet (w w' : World) : calm_step w w' -> quiet_step is_notify w w'.
Proof. intros (ad & Ht & _ & Hn & _). now exists ad. Qed.

Lemma idle_once (w w' : World) : idle_step w w' -> once_step w w'.
Proof. intros (ad & Ht & Hw & Hf). exists ad. auto. Qed.

Lemma calm_trans (w w1 w2 : World) :
  calm_step w w1 -> calm_step w1 w2 -> calm_step w w2.
Proof.
  intros (a & Ht & Hw & Hn & Hf) (a' & Ht' & Hw' & Hn' & Hf').
  exists (a ++ a'). rewrite Ht', Ht, app_assoc, !filter_app, Hw, Hw', Hn, Hn'.
  repeat split; congruence.
Qed.

Lemma idle_trans (w w1 w2 : World) :
  idle_step w w1 -> idle_step w1 w2 -> idle_step w w2.
Proof.
  intros (a & Ht & Hw & Hf) (a' & Ht' & Hw' & Hf').
  exists (a ++ a'). rewrite Ht', Ht, app_assoc, !filter_app, Hw, Hw'.
  repeat split; congruence.
Qed.

Lemma quiet_trans (sel : event -> bool) (w w1 w2 : World) :
  quiet_step sel w w1 -> quiet_step sel w1 w2 -> quiet_step sel w w2.
Proof.
  intros (a & Ht & Hs) (a' & Ht' & Hs').
  exists (a ++ a'). rewrite Ht', Ht, app_assoc, !filter_app, Hs, Hs'. auto.
Qed.

Lemma idle_then_once (w w1 w2 : World) :
  idle_step w w1 -> once_step w1 w2 -> once_step w w2.
Proof.
  intros (a & Ht & Hw & Hf) (a' & Ht' & H).
  exists (a ++ a'). rewrite Ht', Ht, app_assoc, !filter_app, Hw. simpl.
  split; [reflexivity|]. rewrite <- Hf. exact H.
Qed.

Lemma once_then_idle (w w1 w2 : World) :
  once_step w w1 -> idle_step w1 w2 -> once_step w w2.
Proof.
  intros (a & Ht & H) (a' & Ht' & Hw' & Hf').
  exists (a ++ a').
  rewrite Ht', Ht, app_assoc, !filter_app, Hw', app_nil_r, Hf'.
  split; [reflexivity | exact H].
Qed.

Section Respect.

Context {A B : Type}.
Variables R1 R2 R3 : World -> World -> Prop.
Hypothesis compose : forall w w1 w2, R1 w w1 -> R2 w1 w2 -> R3 w w2.
Hypothesis weaken : forall w w1, R1 w w1 -> R3 w w1.

Lemma respects_bind (c : M A) (k : A -> M B) :
  respects R1 c -> (forall a, respects R2 (k a)) -> respects R3 (bind c k).
Proof.
  intros Hc Hk w. unfold bind. specialize (Hc w).
  destruct (c w) as [[a|e] w1]; simpl in *.
  - apply compose with (w1 := w1); [exact Hc | apply Hk].
  - now apply weaken.
Qed.

Lemma respects_try (c : M A) (h : exn -> M A) :
  respects R1 c -> (forall e, respects R2 (h e)) ->
  respects R3 (try_except c h).
Proof.
  intros Hc Hh w. unfold try_except. specialize (Hc w).
  destruct (c w) as [[a|e] w1]; simpl in *.
  - now apply weaken.
  - destruct (is_exception e); simpl.
    + apply compose with (w1 := w1); [exact Hc | apply Hh].
    + now apply weaken.
Qed.

End Respect.

Lemma respects_weaken {A} (R R' : World -> World -> Prop) (c : M A) :
  (forall w w', R w w' -> R' w w') -> respects R c -> respects R' c.
Proof. intros H Hc w. apply H, Hc. Qed.

Section Primitives.

Variable E : Env.

Lemma calm_ret {A} (a : A) : respects calm_step (ret a).
Proof. intros w. apply calm_refl. Qed.

Lemma calm_lift {A} (r : result A) : respects calm_step (lift r).
Proof. intros w. apply calm_refl. Qed.

Lemma calm_print (line : str) : respects calm_step (print line).
Proof. intros w. now apply calm_emit. Qed.

Lemma calm_send_message (m : json) : respects calm_step (send_message E m).
Proof. intros w. now apply calm_emit. Qed.

Lemma calm_smtp_session (msg : EmailMessage) :
  respects calm_step (smtp_session E msg).
Proof. intros w. now apply calm_emit. Qed.

Lemma calm_clock_now : respects calm_step (clock_now E).
Proof. intros w. apply calm_refl. Qed.

Lemma calm_clock_today : respects calm_step (clock_today E).
Proof. intros w. apply calm_refl. Qed.

Lemma write_file_once (path content : str) :
  respects once_step (write_file E path content).
Proof.
  intros w. unfold write_file. destruct (fs_fails E w path); simpl.
  - destruct (fs_leftover E w path content) as [kept|].
    + exists [FileWrite path kept]. split; [reflexivity|].
      right. now exists path, kept.
    + apply idle_once, calm_idle, calm_refl.
  - exists [FileWrite path content]. split; [reflexivity|].
    right. now exists path, content.
Qed.

Lemma write_file_quiet (path content : str) :
  respects (quiet_step is_notify) (write_file E path content).
Proof.
  intros w. unfold write_file. destruct (fs_fails E w path); simpl.
  - destruct (fs_leftover E w path content) as [kept|].
    + now exists [FileWrite path kept].
    + apply calm_quiet, calm_refl.
  - now exists [FileWrite path content].
Qed.

End Primitives.

Ltac calm_prim :=
  first [ apply calm_print | apply calm_lift | apply calm_ret
        | apply calm_send_message | apply calm_smtp_session
        | apply calm_clock_now | apply calm_clock_today ].

Ltac idle_prim := apply (respects_weaken _ _ _ calm_idle); calm_prim.

Ltac quiet_prim :=
  first [ apply write_file_quiet
        | apply (respects_weaken _ _ _ calm_quiet); calm_prim ].

(** Walks a chain of [bind] and [try_except] whose links all respect one
    transitive relation. *)
Ltac walk prim trans :=
  cbv zeta;
  first [ prim
        | apply (respects_bind _ _ _ trans (fun _ _ H => H));
          [ prim | intros; walk prim trans ]
        | apply (respects_try _ _ _ trans (fun _ _ H => H));
          [ walk prim trans | intros; walk prim trans ] ].

Section CycleEffects.

Variable E : Env.

Lemma send_email_idle (subject body : json) :
  respects idle_step (send_email E subject body).
Proof.
  unfold send_email.
  apply (respects_bind _ _ _ idle_trans (fun _ _ H => H)).
  - intros w. now exists [Notify subject body].
  - intros. walk idle_prim idle_trans.
Qed.

(** The Notifier adds its call to the trace, once. *)
Lemma send_email_notifies (subject body : json) (w : World) :
  exists added,
    trace (snd (send_email E subject body w))
    = trace w ++ Notify subject body :: added
    /\ filter is_notify added = [].
Proof.
  unfold send_email. unfold bind at 1. unfold notifier_called.
  match goal with
  | |- context [snd (?c (emit _ _))] =>
      assert (H : respects (quiet_step is_notify) c)
        by (walk quiet_prim (quiet_trans is_notify));
      destruct (H (emit (Notify subject body) w)) as (added & Ht & Hq)
  end.
  exists added. cbv beta in Ht. rewrite Ht. simpl. now rewrite <- app_assoc.
Qed.

Lemma steps_quiet : respects (quiet_step is_notify) (steps_1_to_4 E).
Proof. unfold steps_1_to_4. walk quiet_prim (quiet_trans is_notify). Qed.

Lemma steps_once : respects once_step (steps_1_to_4 E).
Proof.
  unfold steps_1_to_4.
  repeat (cbv zeta;
          apply (respects_bind idle_step once_step once_step
                   idle_then_once idle_once); [idle_prim | intros]).
  cbv zeta.
  apply (respects_bind once_step idle_step once_step
           once_then_idle (fun _ _ H => H)); [apply write_file_once|].
  intros. walk idle_prim idle_trans.
Qed.

Lemma step_5_idle (r : json * json * json) : respects idle_step (step_5 E r).
Proof.
  destruct r as [[title abstract] email_data]. unfold step_5.
  do 2 (apply (respects_bind _ _ _ idle_trans (fun _ _ H => H));
        [idle_prim | intros]).
  apply (respects_bind _ _ _ idle_trans (fun _ _ H => H));
    [apply send_email_idle | intros].
  walk idle_prim idle_trans.
Qed.

Lemma cycle_body_once : respects once_step (cycle_body E).
Proof.
  unfold cycle_body.
  apply (respects_bind once_step idle_step once_step
           once_then_idle (fun _ _ H => H));
    [apply steps_once | apply step_5_idle].
Qed.

Lemma run_once : respects once_step (run_daily_research_cycle E).
Proof.
  unfold run_daily_research_cycle.
  do 2 (apply (respects_bind idle_step once_step once_step
                 idle_then_once idle_once); [idle_prim | intros]).
  apply (respects_try once_step idle_step once_step
           once_then_idle (fun _ _ H => H)); [apply cycle_body_once|].
  intros. unfold on_error. idle_prim.
Qed.

End CycleEffects.

(* ----------------------------------------------------------------- *)
(** ** The cycle *)

Lemma str_eqb_refl (a : str) : str_eqb a a = true.
Proof. unfold str_eqb. now destruct (list_eq_dec ascii_dec a a). Qed.

Lemma lookup_store (path content : str) (fs : list (str * str)) :
  lookup_file path (store path content fs) = Some content.
Proof.
  induction fs as [|[p c] fs IH]; simpl.
  - now rewrite str_eqb_refl.
  - destruct (str_eqb p path) eqn:Hp; simpl.
    + now rewrite str_eqb_refl.
    + now rewrite Hp.
Qed.

Lemma chat_sent_app (a b : list event) :
  chat_sent (a ++ b) = chat_sent a ++ chat_sent b.
Proof.
  induction a as [|ev a IH]; simpl; [reflexivity|].
  destruct ev; simpl; now rewrite ?IH.
Qed.

Lemma notifications_app (a b : list event) :
  notifications (a ++ b) = notifications a ++ notifications b.
Proof.
  induction a as [|ev a IH]; simpl; [reflexivity|].
  destruct ev; simpl; now rewrite ?IH.
Qed.

Lemma notifications_quiet (added : list event) :
  filter is_notify added = [] -> notifications added = [].
Proof.
  induction added as [|ev added IH]; simpl; [reflexivity|].
  destruct ev; simpl; try exact IH. discriminate.
Qed.

Section CycleFacts.

Variable E : Env.

Lemma run_unfold (w : World) :
  run_daily_research_cycle E w
  = try_except (cycle_body E) on_error (world_at_start E w).
Proof. reflexivity. Qed.

Lemma run_outcome (w : World) :
  returned_or_interrupted (fst (run_daily_research_cycle E w)).
Proof.
  rewrite run_unfold. unfold try_except, returned_or_interrupted.
  destruct (cycle_body E (world_at_start E w)) as [[[]|e] w1];
    [now left|].
  destruct (is_exception e) eqn:He; [now left|].
  right. now exists e.
Qed.

(** An exception of class [Exception] that leaves the body of the cycle is
    logged by the handler, and the run returns. *)
Lemma run_handles (w w1 : World) (e : exn) :
  cycle_body E (world_at_start E w) = (Raise e, w1) ->
  is_exception e = true ->
  run_daily_research_cycle E w
  = (Ok tt, emit (Print (lit "An error occurred: " ++ exn_str e)) w1).
Proof.
  intros Hb He. rewrite run_unfold. unfold try_except.
  now rewrite Hb, He.
Qed.

Lemma start_notifications (w : World) :
  notifications (trace (world_at_start E w)) = notifications (trace w).
Proof.
  unfold world_at_start, emit. simpl. rewrite notifications_app. simpl.
  apply app_nil_r.
Qed.

End CycleFacts.




(** C5: when the reply to directive 1 parses to a JSON object without the
    key [title], or without the key [abstract], the cycle stops before the
    outline step: directive 1 is the only message the run sends. *)
Theorem cycle_aborts_on_missing_key (E : Env) (w : World) (d1 : json)
    (text : str) (m : list (str * json)) :
  directive E "directive_1_daily_topic_generation" = Ok d1 ->
  chat_reply E (world_at_step_1 E w) d1 = Ok text ->
  _extract_json (json_loads E) text = Ok (JObject m) ->
  assoc (lit "title") m = None \/ assoc (lit "abstract") m = None ->
  exists w',
    run_daily_research_cycle E w = (Ok tt, w')
    /\ chat_sent (trace w') = chat_sent (trace w) ++ [d1].
Proof.
  intros Hd Hr Hx Hm.
  assert (Hb : exists key,
            cycle_body E (world_at_start E w)
            = (Raise (KeyError key),
               emit (ChatSend d1) (world_at_step_1 E w))).
  { unfold cycle_body, steps_1_to_4.
    cbv [bind print lift send_message].
    change (emit (Print (lit "Step 1: Generating new topic..."))
                 (world_at_start E w)) with (world_at_step_1 E w).
    rewrite Hd. cbv beta iota. rewrite Hr. cbv beta iota.
    rewrite Hx. cbv beta iota. unfold getitem.
    destruct (assoc (lit "title") m) as [t|] eqn:Ht.
    - destruct Hm as [Hm|Hm]; [discriminate|]. rewrite Hm.
      eexists. reflexivity.
    - eexists. reflexivity. }
  destruct Hb as (key & Hb).
  eexists. split; [apply (run_handles E w _ _ Hb); reflexivity|].
  unfold world_at_step_1, world_at_start, emit.
  cbn [snd trace]. rewrite !chat_sent_app. cbn [chat_sent].
  now rewrite !app_nil_r.
Qed.

Lemma cycle_aborts_on_missing_key_witness :
  let E := Reference.env [Ok (q "{'abstract': 'A'}"); Ok (lit "OUTLINE")]
                         None None in
  exists w',
    run_daily_research_cycle E Reference.empty_world = (Ok tt, w')
    /\ chat_sent (trace w') = [] ++ [JString (lit "Propose a topic.")].
Proof.
  intros E.
  apply cycle_aborts_on_missing_key
    with (text := q "{'abstract': 'A'}")
         (m := [(lit "abstract", JString (lit "A"))]).
  - vm_compute. reflexivity.
  - vm_compute. reflexivity.
  - vm_compute. reflexivity.
  - left. vm_compute. reflexivity.
Defined.

(** C6: in every run that reaches step 5 with an Email Record [m], the
    Notifier is called once; without the key [email_subject] its subject is
    the default [Research Article Complete: <title>], and without the key
    [email_body] its body is the abstract of step 1.  The run returns
    normally, unless an exception outside class [Exception] leaves the
    Notifier. *)
Theorem fallback_subject_and_body (E : Env) (w w4 : World)
    (title abstract : json) (m : list (str * json)) :
  steps_1_to_4 E (world_at_start E w)
  = (Ok (title, abstract, JObject m), w4) ->
  exists r w' subject body,
    run_daily_research_cycle E w = (r, w')
    /\ returned_or_interrupted r
    /\ notifications (trace w') = notifications (trace w) ++ [(subject, body)]
    /\ (assoc (lit "email_subject") m = None ->
        subject = JString (lit "Research Article Complete: "
                           ++ py_str E title))
    /\ (assoc (lit "email_body") m = None -> body = abstract).
Proof.
  intros Hsteps.
  set (subject := match assoc (lit "email_subject") m with
                  | Some v => v
                  | None => JString (lit "Research Article Complete: "
                                     ++ py_str E title)
                  end).
  set (body := match assoc (lit "email_body") m with
               | Some v => v
               | None => abstract
               end).
  exists (fst (run_daily_research_cycle E w)),
         (snd (run_daily_research_cycle E w)), subject, body.
  split; [|split; [|split; [|split]]].
  - apply surjective_pairing.
  - apply run_outcome.
  - assert (H4 : notifications (trace w4) = notifications (trace w)).
    { destruct (steps_quiet E (world_at_start E w)) as (ad & Ht & Hq).
      rewrite Hsteps in Ht. simpl in Ht.
      rewrite Ht, notifications_app, (notifications_quiet _ Hq), app_nil_r.
      apply start_notifications. }
    rewrite run_unfold. unfold try_except, cycle_body.
    unfold bind at 1. rewrite Hsteps.
    unfold step_5, dict_get. cbv [bind lift].
    fold subject. fold body.
    destruct (send_email_notifies E subject body w4) as (ad & Ht & Hq).
    destruct (send_email E subject body w4) as [[u|e] w5]; simpl in Ht;
      [|destruct (is_exception e)];
      unfold clock_now, on_error, print, emit; cbn [snd trace];
      rewrite Ht, !notifications_app; cbn [notifications];
      rewrite H4, (notifications_quiet _ Hq); now rewrite ?app_nil_r.
  - intros H. subst subject. now rewrite H.
  - intros H. subst body. now rewrite H.
Qed.

Lemma fallback_subject_and_body_witness :
  let E := Reference.env
             [Ok (q "{'title':'T','abstract':'A'}"); Ok (lit "OUTLINE");
              Ok (lit "ARTICLE BODY"); Ok (q "Here you go: {'note': 1}")]
             None None in
  exists r w' subject body,
    run_daily_research_cycle E Reference.empty_world = (r, w')
    /\ returned_or_interrupted r
    /\ notifications (trace w') = [] ++ [(subject, body)]
    /\ (assoc (lit "email_subject") [(lit "note", JInt 1)] = None ->
        subject = JString (lit "Research Article Complete: T"))
    /\ (assoc (lit "email_body") [(lit "note", JInt 1)] = None ->
        body = JString (lit "A")).
Proof.
  intros E.
  apply (fallback_subject_and_body E Reference.empty_world
           (snd (steps_1_to_4 E (world_at_start E Reference.empty_world)))
           (JString (lit "T")) (JString (lit "A")) [(lit "note", JInt 1)]).
  vm_compute. reflexivity.
Defined.

(* ----------------------------------------------------------------- *)
(** ** The Notifier *)




(** A subject that is not text: [None] gives an empty Subject header and the
    session is opened; a number that is not zero is refused before it. *)
Example subject_that_is_not_text :
  let E := Reference.env [] None None in
  smtp_attempts
    (trace (snd (send_email E JNull (JString (lit "B"))
                            Reference.empty_world)))
  = [{| msg_from := lit "your_email@example.com";
        msg_to := lit "recipient_email@example.com";
        msg_subject := [];
        msg_content := lit "B" ++ ["010"%char] |}]
  /\ fst (send_email E (JInt 7) (JString (lit "B")) Reference.empty_world)
     = Raise (TypeError (lit "expected string or bytes-like object")).
Proof. split; vm_compute; reflexivity. Qed.

(** An interrupt inside the SMTP block is not caught by the handler of
    [send_email], nor by the handler of the cycle. *)
Example interrupt_during_delivery :
  let stop := Interrupt (lit "KeyboardInterrupt") [] in
  let E := Reference.env
             [Ok (q "{'title':'T','abstract':'A'}"); Ok (lit "OUTLINE");
              Ok (lit "ARTICLE BODY");
              Ok (q "{'email_subject':'S','email_body':'B'}")]
             None (Some stop) in
  fst (send_email E (JString (lit "S")) (JString (lit "B"))
                  Reference.empty_world) = Raise stop
  /\ fst (run_daily_research_cycle E Reference.empty_world) = Raise stop
  /\ lookup_file (lit "articles/2024-05-17_T.txt")
       (files (snd (run_daily_research_cycle E Reference.empty_world)))
     = Some (lit "ARTICLE BODY").
Proof. repeat split; vm_compute; reflexivity. Qed.

(* ----------------------------------------------------------------- *)
(** ** The end-to-end scenario of the specification *)

Example end_to_end_scenario :
  let E := Reference.env
             [Ok (q "{'title':'T','abstract':'A'}"); Ok (lit "OUTLINE");
              Ok (lit "ARTICLE BODY");
              Ok (q "```json
{'email_subject':'S','email_body':'B'}
```")] None None in
  let w' := snd (run_daily_research_cycle E Reference.empty_world) in
  files w' = [(lit "articles/2024-05-17_T.txt", lit "ARTICLE BODY")]
  /\ notifications (trace w') = [(JString (lit "S"), JString (lit "B"))]
  /\ List.length (chat_sent (trace w')) = 4.
Proof. repeat split; vm_compute; reflexivity. Qed.

(** A failure after the article was written: the report of step 4 is not
    JSON, the cycle stops there and the article stays where it is. *)
Example failure_after_write :
  let E := Reference.env
             [Ok (q "{'title':'T','abstract':'A'}"); Ok (lit "OUTLINE");
              Ok (lit "ARTICLE BODY"); Ok (lit "sorry, no report")]
             None None in
  let w' := snd (run_daily_research_cycle E Reference.empty_world) in
  fst (run_daily_research_cycle E Reference.empty_world) = Ok tt
  /\ lookup_file (lit "articles/2024-05-17_T.txt") (files w')
     = Some (lit "ARTICLE BODY")
  /\ notifications (trace w') = []
  /\ last (trace w') (Print [])
     = Print (lit "An error occurred: No JSON object found in response.").
Proof. repeat split; vm_compute; reflexivity. Qed.

(* ================================================================= *)
(** * Further properties of the extractor *)

Lemma find_some (c : ascii) (s : str) : forall n,
  find c s = Some n ->
  exists a b, s = a ++ c :: b /\ ~ In c a /\ List.length a = n.
Proof.
  induction s as [|x s IH]; intros n H; simpl in H; [discriminate|].
  destruct (Ascii.eqb x c) eqn:Hx.
  - apply Ascii.eqb_eq in Hx. subst x. injection H as <-.
    exists [], s. repeat split. intros [].
  - destruct (find c s) as [k|] eqn:Hf; [|discriminate].
    injection H as <-. destruct (IH k eq_refl) as (a & b & -> & Ha & Hl).
    exists (x :: a), b. repeat split; [|simpl; now rewrite Hl].
    intros [->|Hin]; [|now apply Ha].
    now rewrite Ascii.eqb_refl in Hx.
Qed.

Lemma find_none_inv (c : ascii) (s : str) : find c s = None -> ~ In c s.
Proof.
  induction s as [|x s IH]; simpl; intros H; [intros []|].
  destruct (Ascii.eqb x c) eqn:Hx; [discriminate|].
  destruct (find c s); [discriminate|].
  intros [->|Hin]; [now rewrite Ascii.eqb_refl in Hx | now apply IH].
Qed.

Lemma clean_keeps_brace (text : str) :
  In "{"%char text -> In "{"%char (clean text).
Proof.
  intros Hin. destruct (clean_margins text) as (a & b & Ht & Ha & Hb).
  rewrite Ht in Hin. apply in_app_or in Hin as [Hin|Hin].
  - now apply not_in_brace_free in Ha.
  - apply in_app_or in Hin as [Hin|Hin]; [exact Hin|].
    now apply not_in_brace_free in Hb.
Qed.

(** X1: when the whole cleaned text is not valid JSON and the first balanced
    region of braces parses, the extractor returns the value of that region,
    whatever prose surrounds it. *)
Theorem extract_embedded_object (loads : str -> option json)
    (text pre cand post : str) (v : json) :
  clean text = pre ++ cand ++ post ->
  ~ In "{"%char pre ->
  balanced_region cand = true ->
  loads (clean text) = None ->
  loads cand = Some v ->
  _extract_json loads text = Ok v.
Proof.
  intros Hc Hpre Hb Hw Hcand.
  rewrite (extract_first_region _ _ _ _ _ Hc Hpre Hb Hw). now rewrite Hcand.
Qed.

Lemma extract_embedded_object_witness :
  let text := q "Sure! Here is the topic: {'title': 'T', 'n': {'k': 1}} Enjoy." in
  _extract_json JsonReader.loads text
  = Ok (JObject [(lit "title", JString (lit "T"));
                 (lit "n", JObject [(lit "k", JInt 1)])]).
Proof.
  apply extract_embedded_object
    with (pre := lit "Sure! Here is the topic: ")
         (cand := q "{'title': 'T', 'n': {'k': 1}}")
         (post := lit " Enjoy.").
  - vm_compute. reflexivity.
  - simpl. intros H. repeat (destruct H as [H|H]; [discriminate|]). exact H.
  - vm_compute. reflexivity.
  - vm_compute. reflexivity.
  - vm_compute. reflexivity.
Defined.

Lemma dropwhile_all (p : ascii -> bool) (s : str) :
  all_of p s -> dropwhile p s = [].
Proof. induction 1 as [|c s Hc _ IH]; simpl; [reflexivity | now rewrite Hc]. Qed.

Lemma dropwhile_app_r (p : ascii -> bool) (s b : str) :
  dropwhile p (s ++ b)
  = match dropwhile p s with
    | [] => dropwhile p b
    | _ :: _ => dropwhile p s ++ b
    end.
Proof.
  induction s as [|c s IH]; simpl; [now destruct (dropwhile p b)|].
  destruct (p c); [exact IH | reflexivity].
Qed.

Lemma strip_by_pad (p : ascii -> bool) (a s b : str) :
  all_of p a -> all_of p b -> strip_by p (a ++ s ++ b) = strip_by p s.
Proof.
  intros Ha Hb. unfold strip_by, rstrip_by, lstrip_by.
  rewrite dropwhile_skip by assumption. rewrite dropwhile_app_r.
  destruct (dropwhile p s) as [|x r] eqn:Hd.
  - now rewrite (dropwhile_all _ _ Hb).
  - rewrite rev_app_distr, dropwhile_skip by now apply all_of_rev.
    reflexivity.
Qed.

(** X2: white space before and after a reply never changes what the
    extractor answers. *)
Theorem extract_ignores_padding (loads : str -> option json)
    (text a b : str) :
  all_of isspace a -> all_of isspace b ->
  _extract_json loads (a ++ text ++ b) = _extract_json loads text.
Proof.
  intros Ha Hb. unfold _extract_json, clean, strip.
  now rewrite (strip_by_pad isspace a text b Ha Hb).
Qed.

Lemma extract_ignores_padding_witness :
  _extract_json JsonReader.loads
    (lit "
  " ++ q "{'a': [1]} trailing prose" ++ lit "  ")
  = _extract_json JsonReader.loads (q "{'a': [1]} trailing prose").
Proof.
  apply extract_ignores_padding; repeat constructor.
Defined.

(** X3: the extractor reports "No JSON object found" exactly when the
    cleaned text is not valid JSON and the input holds no opening brace. *)
Theorem extract_no_json_iff (loads : str -> option json) (text : str) :
  _extract_json loads text = Raise NO_JSON
  <-> loads (clean text) = None /\ ~ In "{"%char text.
Proof.
  split.
  - unfold _extract_json. intros H.
    destruct (loads (clean text)) as [v|]; [discriminate|].
    split; [reflexivity|].
    destruct (find "{"%char (clean text)) as [n|] eqn:Hf.
    + destruct (brace_loop _ _ _ _ _ _); discriminate.
    + intros Hin. apply (find_none_inv _ _ Hf). now apply clean_keeps_brace.
  - intros [Hw Hn]. apply extract_no_brace; [|exact Hw].
    now apply clean_keeps_absence.
Qed.

(** A value returned by the loop is the parse of the text between
    [start_idx] and the first character at which the depth is back to
    zero. *)
Lemma brace_loop_found (loads : str -> option json) (cleaned : str)
    (start_idx : nat) (v : json) (rest : str) : forall (depth : Z) (idx : nat),
  (0 < depth)%Z ->
  brace_loop loads cleaned start_idx idx rest depth = Some v ->
  exists cand post,
    rest = cand ++ post
    /\ (depth + depth_of cand)%Z = 0%Z
    /\ (forall k, 1 <= k < List.length cand ->
                  (depth + depth_of (firstn k cand))%Z <> 0%Z)
    /\ loads (slice cleaned start_idx (idx + List.length cand)) = Some v.
Proof.
  induction rest as [|c rest IH]; intros depth idx Hpos H; simpl in H;
    [discriminate|].
  assert (Hstep : forall d', (0 < d')%Z -> d' = (depth + brace_delta c)%Z ->
            brace_loop loads cleaned start_idx (S idx) rest d' = Some v ->
            exists cand post,
              c :: rest = cand ++ post
              /\ (depth + depth_of cand)%Z = 0%Z
              /\ (forall k, 1 <= k < List.length cand ->
                    (depth + depth_of (firstn k cand))%Z <> 0%Z)
              /\ loads (slice cleaned start_idx (idx + List.length cand))
                 = Some v).
  { intros d' Hd' Hdelta Hrec.
    destruct (IH d' (S idx) Hd' Hrec) as (cand & post & Hr & Hz & Ho & Hl).
    exists (c :: cand), post. repeat split.
    - simpl. now rewrite Hr.
    - simpl. lia.
    - intros k Hk. destruct k as [|k]; [lia|]. simpl.
      destruct k as [|k]; [simpl; lia|].
      specialize (Ho (S k) ltac:(simpl in Hk; lia)). lia.
    - replace (idx + List.length (c :: cand))
        with (S idx + List.length cand) by (simpl; lia).
      exact Hl. }
  unfold brace_delta in Hstep.
  destruct (Ascii.eqb c "{").
  - apply (Hstep (depth + 1)%Z); [lia | reflexivity | exact H].
  - destruct (Ascii.eqb c "}") eqn:Hc.
    + destruct (depth - 1 =? 0)%Z eqn:Hz.
      * apply Z.eqb_eq in Hz. exists [c], rest. repeat split.
        -- simpl. unfold brace_delta.
           destruct (Ascii.eqb c "{") eqn:Hc'; [|rewrite Hc; lia].
           apply Ascii.eqb_eq in Hc'. apply Ascii.eqb_eq in Hc. congruence.
        -- intros k Hk. simpl in Hk. lia.
        -- simpl. now destruct (loads _).
      * apply Z.eqb_neq in Hz.
        apply (Hstep (depth - 1)%Z); [lia | lia | exact H].
    + apply (Hstep depth); [lia | lia | exact H].
Qed.

Lemma open_through_intro (s : str) (n : nat) :
  (forall k, 1 <= k <= n -> depth_of (firstn k s) <> 0%Z) ->
  open_through s n = true.
Proof.
  intros H. unfold open_through. apply forallb_forall. intros k Hk.
  apply in_seq in Hk. apply negb_true_iff, Z.eqb_neq, H. lia.
Qed.

(** X4: whatever the extractor returns is what [json.loads] gives either for
    the whole cleaned text or, when that is not valid JSON, for the first
    balanced region of braces in it; no other part of the reply is ever the
    origin of a result. *)
Theorem extract_value_origin (loads : str -> option json) (text : str)
    (v : json) :
  _extract_json loads text = Ok v ->
  loads (clean text) = Some v
  \/ (loads (clean text) = None
      /\ exists pre cand post,
           clean text = pre ++ cand ++ post
           /\ ~ In "{"%char pre
           /\ balanced_region cand = true
           /\ loads cand = Some v).
Proof.
  unfold _extract_json. intros H.
  destruct (loads (clean text)) as [v'|] eqn:Hw;
    [left; now injection H as -> | right; split; [reflexivity|]].
  destruct (find "{"%char (clean text)) as [n|] eqn:Hf; [|discriminate].
  destruct (find_some _ _ _ Hf) as (pre & b & Hc & Hpre & Hn).
  rewrite Hc in H at 2. rewrite <- Hn, skipn_length_app in H.
  simpl brace_loop in H.
  destruct (brace_loop loads (clean text) (List.length pre)
              (S (List.length pre)) b 1) as [v''|] eqn:Hl; [|discriminate].
  injection H as ->.
  destruct (brace_loop_found loads (clean text) (List.length pre) v b 1%Z
              (S (List.length pre)) ltac:(lia) Hl)
    as (cand & post & Hb & Hz & Ho & Hv).
  exists pre, ("{"%char :: cand), post.
  assert (Hclean : clean text = pre ++ ("{"%char :: cand) ++ post)
    by (rewrite Hc, Hb; reflexivity).
  repeat split; [exact Hclean | exact Hpre | |].
  - unfold balanced_region. apply andb_true_iff. split.
    + apply andb_true_iff. split; [reflexivity|].
      apply Z.eqb_eq.
      change (depth_of ("{"%char :: cand)) with (1 + depth_of cand)%Z. lia.
    + apply open_through_intro. intros k Hk. simpl in Hk.
      destruct k as [|k]; [lia|].
      change (depth_of (firstn (S k) ("{"%char :: cand)))
        with (1 + depth_of (firstn k cand))%Z.
      destruct k as [|k]; [simpl; lia|].
      apply Ho. lia.
  - rewrite Hclean in Hv at 1.
    replace (S (List.length pre) + List.length cand)
      with (List.length pre + List.length ("{"%char :: cand)) in Hv
      by (simpl; lia).
    now rewrite slice_middle in Hv.
Qed.

Lemma extract_value_origin_witness :
  let text := q "note {'a': 1} and {'b': 2}" in
  JsonReader.loads (clean text) = Some (JObject [(lit "a", JInt 1)])
  \/ (JsonReader.loads (clean text) = None
      /\ exists pre cand post,
           clean text = pre ++ cand ++ post
           /\ ~ In "{"%char pre
           /\ balanced_region cand = true
           /\ JsonReader.loads cand = Some (JObject [(lit "a", JInt 1)])).
Proof.
  apply extract_value_origin. vm_compute. reflexivity.
Defined.

(* ================================================================= *)
(** * Further properties of the article file name *)

Lemma alnum_not_space (c : ascii) : isalnum c = true -> isspace c = false.
Proof.
  destruct c as [[|] [|] [|] [|] [|] [|] [|] [|]]; vm_compute;
    intros; congruence.
Qed.

Lemma strip_by_firm (p : ascii -> bool) (s : str) :
  Forall (fun c => p c = false) s -> strip_by p s = s.
Proof.
  intros H. destruct s as [|x s]; [reflexivity|].
  replace (x :: s) with ([] ++ (x :: s) ++ []) at 1
    by (simpl; now rewrite app_nil_r).
  apply strip_by_core; try constructor.
  - now inversion H.
  - apply Forall_rev in H. destruct (rev (x :: s)) as [|y r] eqn:Hr.
    + apply (f_equal (@List.length _)) in Hr. rewrite length_rev in Hr.
      discriminate.
    + now inversion H.
Qed.

Lemma stem_chars_kept (s : str) :
  Forall (fun c => isalnum c = true \/ c = "_"%char \/ c = "-"%char) s ->
  filter allowed s = s /\ strip s = s /\ replace " " "_" s = s.
Proof.
  intros H. repeat split.
  - induction H as [|c s Hc _ IH]; simpl; [reflexivity|].
    replace (allowed c) with true; [now rewrite IH|].
    unfold allowed. destruct Hc as [-> | [-> | ->]]; [|reflexivity..].
    reflexivity.
  - apply strip_by_firm. eapply Forall_impl; [|exact H].
    intros c [Hc | [-> | ->]]; [now apply alnum_not_space | reflexivity..].
  - unfold replace. induction H as [|c s Hc _ IH]; simpl; [reflexivity|].
    rewrite IH. f_equal.
    destruct (Ascii.eqb c " ") eqn:E; [|reflexivity].
    apply Ascii.eqb_eq in E. subst c.
    destruct Hc as [Hc | [Hc | Hc]]; discriminate.
Qed.

(** X5: a title that is already a stem is used as it is: sanitizing the
    stem of any title gives that stem again (lines 144-145 are idempotent). *)
Theorem stem_is_fixed (title : str) :
  safe_title (JString (sanitize title)) = Ok (sanitize title)
  /\ replace " " "_" (sanitize title) = sanitize title.
Proof.
  destruct (stem_chars_kept _ (sanitize_chars title)) as (Hf & Hs & Hr).
  split; [|exact Hr].
  rewrite safe_title_text, Hf, Hs. reflexivity.
Qed.




(* ================================================================= *)
(** * Further properties of the Notifier *)



(* ================================================================= *)
(** * Further properties of the cycle *)

(** ** Counting what a computation adds to the trace *)

Section Counting.

Variable sel : event -> bool.

Lemma count_refl (n : nat) (w : World) : count_step sel n w w.
Proof. exists []. rewrite app_nil_r. simpl. split; [reflexivity | lia]. Qed.

Lemma count_emit0 (ev : event) (w : World) :
  sel ev = false -> count_step sel 0 w (emit ev w).
Proof. intros H. exists [ev]. simpl. rewrite H. simpl. split; auto. Qed.

Lemma count_emit1 (ev : event) (w : World) : count_step sel 1 w (emit ev w).
Proof.
  exists [ev]. simpl. split; [reflexivity|]. destruct (sel ev); simpl; lia.
Qed.

Lemma count_leave0 (path content : str) (w : World) :
  sel (FileWrite path content) = false ->
  count_step sel 0 w (leave_file path content w).
Proof.
  intros H. exists [FileWrite path content]. simpl. rewrite H. simpl. auto.
Qed.

Lemma count_leave1 (path content : str) (w : World) :
  count_step sel 1 w (leave_file path content w).
Proof.
  exists [FileWrite path content]. simpl. split; [reflexivity|].
  destruct (sel _); simpl; lia.
Qed.

Lemma count_compose (a b c : nat) :
  a + b <= c ->
  forall w w1 w2,
  count_step sel a w w1 -> count_step sel b w1 w2 -> count_step sel c w w2.
Proof.
  intros Hc w w1 w2 (l & Ht & Hl) (l' & Ht' & Hl').
  exists (l ++ l'). rewrite Ht', Ht, app_assoc, filter_app, length_app.
  split; [reflexivity | lia].
Qed.

Lemma count_mono (a c : nat) :
  a <= c -> forall w w1, count_step sel a w w1 -> count_step sel c w w1.
Proof. intros Hc w w1 (l & Ht & Hl). exists l. split; [exact Ht | lia]. Qed.

Variable E : Env.

Lemma cnt_ret {A} (a : A) : respects (count_step sel 0) (ret a).
Proof. intros w. apply count_refl. Qed.

Lemma cnt_lift {A} (r : result A) : respects (count_step sel 0) (lift r).
Proof. intros w. apply count_refl. Qed.

Lemma cnt_clock_now : respects (count_step sel 0) (clock_now E).
Proof. intros w. apply count_refl. Qed.

Lemma cnt_clock_today : respects (count_step sel 0) (clock_today E).
Proof. intros w. apply count_refl. Qed.

Lemma cnt_print (line : str) :
  sel (Print line) = false -> respects (count_step sel 0) (print line).
Proof. intros H w. now apply count_emit0. Qed.

Lemma cnt_send0 (m : json) :
  sel (ChatSend m) = false -> respects (count_step sel 0) (send_message E m).
Proof. intros H w. now apply count_emit0. Qed.

Lemma cnt_send1 (m : json) : respects (count_step sel 1) (send_message E m).
Proof. intros w. apply count_emit1. Qed.

Lemma cnt_smtp0 (msg : EmailMessage) :
  sel (SmtpAttempt msg) = false ->
  respects (count_step sel 0) (smtp_session E msg).
Proof. intros H w. now apply count_emit0. Qed.

Lemma cnt_smtp1 (msg : EmailMessage) :
  respects (count_step sel 1) (smtp_session E msg).
Proof. intros w. apply count_emit1. Qed.

Lemma cnt_notify0 (subject body : json) :
  sel (Notify subject body) = false ->
  respects (count_step sel 0) (notifier_called subject body).
Proof. intros H w. now apply count_emit0. Qed.

Lemma cnt_notify1 (subject body : json) :
  respects (count_step sel 1) (notifier_called subject body).
Proof. intros w. apply count_emit1. Qed.

Lemma cnt_write0 (path content : str) :
  (forall kept, sel (FileWrite path kept) = false) ->
  respects (count_step sel 0) (write_file E path content).
Proof.
  intros H w. unfold write_file. destruct (fs_fails E w path); simpl.
  - destruct (fs_leftover E w path content) as [kept|].
    + now apply count_leave0.
    + apply count_refl.
  - now apply count_leave0.
Qed.

Lemma cnt_write1 (path content : str) :
  respects (count_step sel 1) (write_file E path content).
Proof.
  intros w. unfold write_file. destruct (fs_fails E w path); simpl.
  - destruct (fs_leftover E w path content) as [kept|].
    + apply count_leave1.
    + apply (count_mono 0 1 (Nat.le_0_l _)), count_refl.
  - apply count_leave1.
Qed.

End Counting.

Ltac cnt0 :=
  first [ apply cnt_ret | apply cnt_lift | apply cnt_clock_now
        | apply cnt_clock_today
        | apply cnt_print; reflexivity | apply cnt_send0; reflexivity
        | apply cnt_smtp0; reflexivity | apply cnt_notify0; reflexivity
        | apply cnt_write0; intros; reflexivity ].

Ltac cnt1 :=
  first [ apply cnt_send1 | apply cnt_smtp1 | apply cnt_notify1
        | apply cnt_write1 ].

(** Walks a chain of [bind] and [try_except], spending one unit of the
    budget on each link that may add a selected event. *)
Ltac count_walk :=
  cbv beta zeta;
  lazymatch goal with
  | |- respects (count_step ?sel ?n) (bind _ _) =>
      first
        [ apply (respects_bind (count_step sel 0) (count_step sel n)
                   (count_step sel n)
                   (count_compose sel 0 n n (le_n _))
                   (count_mono sel 0 n (Nat.le_0_l _)));
          [ cnt0 | intros; count_walk ]
        | lazymatch n with
          | S ?m =>
              apply (respects_bind (count_step sel 1) (count_step sel m)
                       (count_step sel n)
                       (count_compose sel 1 m n (le_n _))
                       (count_mono sel 1 n (le_n_S _ _ (Nat.le_0_l _))));
              [ cnt1 | intros; count_walk ]
          end ]
  | |- respects (count_step ?sel ?n) (try_except _ _) =>
      apply (respects_try (count_step sel n) (count_step sel 0)
               (count_step sel n)
               (count_compose sel n 0 n (Nat.eq_le_incl _ _ (Nat.add_0_r _)))
               (fun _ _ H => H));
      [ count_walk | intros; count_walk ]
  | |- respects (count_step ?sel ?n) _ =>
      first
        [ apply (respects_weaken (count_step sel 0) (count_step sel n) _
                   (count_mono sel 0 n (Nat.le_0_l _))); cnt0
        | lazymatch n with
          | S ?m =>
              apply (respects_weaken (count_step sel 1) (count_step sel n) _
                       (count_mono sel 1 n (le_n_S _ _ (Nat.le_0_l _))));
              cnt1
          end ]
  end.

Section CycleCounts.

Variable E : Env.

Lemma steps_chat : respects (count_step is_chat 4) (steps_1_to_4 E).
Proof. unfold steps_1_to_4. count_walk. Qed.

Lemma steps_smtp : respects (count_step is_smtp 0) (steps_1_to_4 E).
Proof. unfold steps_1_to_4. count_walk. Qed.

Lemma steps_notify : respects (count_step is_notify 0) (steps_1_to_4 E).
Proof. unfold steps_1_to_4. count_walk. Qed.

Lemma steps_write : respects (count_step is_write 1) (steps_1_to_4 E).
Proof. unfold steps_1_to_4. count_walk. Qed.

Lemma send_email_chat (subject body : json) :
  respects (count_step is_chat 0) (send_email E subject body).
Proof. unfold send_email. count_walk. Qed.

Lemma send_email_write (subject body : json) :
  respects (count_step is_write 0) (send_email E subject body).
Proof. unfold send_email. count_walk. Qed.

Lemma send_email_notify (subject body : json) :
  respects (count_step is_notify 1) (send_email E subject body).
Proof. unfold send_email. count_walk. Qed.

Lemma send_email_smtp (subject body : json) :
  respects (count_step is_smtp 1) (send_email E subject body).
Proof. unfold send_email. count_walk. Qed.

End CycleCounts.

Lemma chat_sent_count (l : list event) :
  List.length (chat_sent l) = List.length (filter is_chat l).
Proof. induction l as [|[] l IH]; simpl; auto. Qed.

Lemma writes_count (l : list event) :
  List.length (writes l) = List.length (filter is_write l).
Proof. induction l as [|[] l IH]; simpl; auto. Qed.

Lemma notifications_count (l : list event) :
  List.length (notifications l) = List.length (filter is_notify l).
Proof. induction l as [|[] l IH]; simpl; auto. Qed.

Lemma smtp_attempts_count (l : list event) :
  List.length (smtp_attempts l) = List.length (filter is_smtp l).
Proof. induction l as [|[] l IH]; simpl; auto. Qed.

Section RunCounts.

Variable E : Env.
Variable sel : event -> bool.
Hypothesis sel_print : forall line, sel (Print line) = false.

Lemma step_5_count (n : nat) (r : json * json * json) :
  (forall subject body,
     respects (count_step sel n) (send_email E subject body)) ->
  respects (count_step sel n) (step_5 E r).
Proof.
  intros Hsend. destruct r as [[title abstract] email_data]. unfold step_5.
  do 2 (apply (respects_bind _ _ _ (count_compose sel 0 n n (le_n _))
                 (count_mono sel 0 n (Nat.le_0_l _)));
        [apply cnt_lift | intros]).
  apply (respects_bind _ _ _
           (count_compose sel n 0 n (Nat.eq_le_incl _ _ (Nat.add_0_r _)))
           (fun _ _ H => H)); [apply Hsend | intros].
  apply (respects_bind _ _ _ (count_compose sel 0 0 0 (le_n _))
           (fun _ _ H => H)); [apply cnt_clock_now | intros].
  apply cnt_print, sel_print.
Qed.

Lemma run_count (a b : nat) :
  respects (count_step sel a) (steps_1_to_4 E) ->
  (forall subject body,
     respects (count_step sel b) (send_email E subject body)) ->
  respects (count_step sel (a + b)) (run_daily_research_cycle E).
Proof.
  intros Hsteps Hsend. unfold run_daily_research_cycle.
  apply (respects_bind _ _ _ (count_compose sel 0 _ _ (le_n _))
           (count_mono sel 0 _ (Nat.le_0_l _))); [apply cnt_clock_now|].
  intros now.
  apply (respects_bind _ _ _ (count_compose sel 0 _ _ (le_n _))
           (count_mono sel 0 _ (Nat.le_0_l _)));
    [apply cnt_print, sel_print|].
  intros _.
  apply (respects_try _ _ _
           (count_compose sel (a + b) 0 _
              (Nat.eq_le_incl _ _ (Nat.add_0_r _)))
           (fun _ _ H => H)).
  - unfold cycle_body.
    apply (respects_bind _ _ _ (count_compose sel a b _ (le_n _))
             (count_mono sel a _ (Nat.le_add_r _ _)));
      [exact Hsteps | intros r; now apply step_5_count].
  - intros e. apply cnt_print, sel_print.
Qed.

End RunCounts.

(** X8: one run sends four chat messages at most, writes one file at most,
    calls the Notifier once at most and opens one SMTP session at most,
    whatever the surroundings answer. *)
Theorem run_effects_bounded (E : Env) (w : World) :
  exists added,
    trace (snd (run_daily_research_cycle E w)) = trace w ++ added
    /\ List.length (chat_sent added) <= 4
    /\ List.length (writes added) <= 1
    /\ List.length (notifications added) <= 1
    /\ List.length (smtp_attempts added) <= 1.
Proof.
  destruct (run_count E is_chat (fun _ => eq_refl) 4 0
              (steps_chat E) (send_email_chat E) w) as (l & Ht & Hc).
  destruct (run_count E is_write (fun _ => eq_refl) 1 0
              (steps_write E) (send_email_write E) w) as (l1 & Ht1 & Hw).
  destruct (run_count E is_notify (fun _ => eq_refl) 0 1
              (steps_notify E) (send_email_notify E) w) as (l2 & Ht2 & Hn).
  destruct (run_count E is_smtp (fun _ => eq_refl) 0 1
              (steps_smtp E) (send_email_smtp E) w) as (l3 & Ht3 & Hs).
  rewrite Ht in Ht1, Ht2, Ht3.
  apply app_inv_head in Ht1, Ht2, Ht3. subst l1 l2 l3.
  exists l. rewrite chat_sent_count, writes_count, notifications_count,
    smtp_attempts_count.
  repeat split; assumption.
Qed.

Lemma lookup_store_other (p q content : str) (fs : list (str * str)) :
  p <> q -> lookup_file q (store p content fs) = lookup_file q fs.
Proof.
  intros Hpq.
  assert (Hne : str_eqb p q = false).
  { unfold str_eqb. now destruct (list_eq_dec ascii_dec p q). }
  induction fs as [|[p' c'] fs IH]; simpl.
  - now rewrite Hne.
  - destruct (str_eqb p' p) eqn:Hp; simpl.
    + rewrite Hne.
      unfold str_eqb in Hp.
      destruct (list_eq_dec ascii_dec p' p) as [->|]; [|discriminate].
      now rewrite Hne.
    + now rewrite IH.
Qed.

(** X9: a run leaves every file it did not open for writing as it found it:
    a path that is not the target of a write of this run, completed or
    failed after the file was opened, holds afterwards what it held before
    (or is still absent). *)
Theorem run_keeps_other_files (E : Env) (w : World) :
  exists added,
    trace (snd (run_daily_research_cycle E w)) = trace w ++ added
    /\ forall path,
         (forall content, ~ In (FileWrite path content) added) ->
         lookup_file path (files (snd (run_daily_research_cycle E w)))
         = lookup_file path (files w).
Proof.
  destruct (run_once E w) as (added & Ht & H). exists added.
  split; [exact Ht|]. intros path Hnot.
  destruct H as [[_ Hf] | (p & c & Hone & Hf)]; rewrite Hf; [reflexivity|].
  apply lookup_store_other. intros ->.
  apply (Hnot c).
  assert (Hin : In (FileWrite path c) (filter is_write added))
    by (rewrite Hone; now left).
  now apply filter_In in Hin.
Qed.

(** ** What a step that returned has done *)

Lemma ok_of_respects {A} (R : World -> World -> Prop) (c : M A) :
  respects R c -> respects_ok R c.
Proof. intros H w a w' Hc. specialize (H w). now rewrite Hc in H. Qed.

Lemma ok_bind {A B} (R1 R2 R3 : World -> World -> Prop)
    (c : M A) (k : A -> M B) :
  (forall w w1 w2, R1 w w1 -> R2 w1 w2 -> R3 w w2) ->
  respects_ok R1 c -> (forall a, respects_ok R2 (k a)) ->
  respects_ok R3 (bind c k).
Proof.
  intros compose Hc Hk w b w' H. unfold bind in H.
  destruct (c w) as [[a|e] w1] eqn:Hcw; [|discriminate].
  apply compose with (w1 := w1); [now apply (Hc w a) | now apply (Hk a w1 b)].
Qed.

Lemma idle_then_wrote (w w1 w2 : World) :
  idle_step w w1 -> wrote_step w1 w2 -> wrote_step w w2.
Proof.
  intros (a & Ht & _) (a' & Ht' & Hw).
  exists (a ++ a'). rewrite Ht', Ht, app_assoc. split; [reflexivity|].
  rewrite filter_app. intros H. apply app_eq_nil in H as [_ H]. now apply Hw.
Qed.

Lemma wrote_then_idle (w w1 w2 : World) :
  wrote_step w w1 -> idle_step w1 w2 -> wrote_step w w2.
Proof.
  intros (a & Ht & Hw) (a' & Ht' & _).
  exists (a ++ a'). rewrite Ht', Ht, app_assoc. split; [reflexivity|].
  rewrite filter_app. intros H. apply app_eq_nil in H as [H _]. now apply Hw.
Qed.

Lemma writes_nil (l : list event) : writes l = [] -> filter is_write l = [].
Proof.
  induction l as [|[] l IH]; simpl; auto. discriminate.
Qed.


Section AfterSteps.

Variable E : Env.

Lemma write_file_wrote (path content : str) :
  respects_ok wrote_step (write_file E path content).
Proof.
  intros w a w' H. unfold write_file in H.
  destruct (fs_fails E w path); [discriminate|]. injection H as _ <-.
  exists [FileWrite path content]. split; [reflexivity | discriminate].
Qed.

(** Steps 1 to 4 return only after the article was written. *)
Lemma steps_wrote : respects_ok wrote_step (steps_1_to_4 E).
Proof.
  unfold steps_1_to_4.
  repeat (cbv beta zeta;
          apply (ok_bind idle_step wrote_step wrote_step _ _ idle_then_wrote);
          [apply ok_of_respects; idle_prim | intros]).
  cbv beta zeta.
  apply (ok_bind wrote_step idle_step wrote_step _ _ wrote_then_idle);
    [apply write_file_wrote | intros].
  apply ok_of_respects. walk idle_prim idle_trans.
Qed.

Lemma run_after_steps (w w4 : World) (r : json * json * json) :
  steps_1_to_4 E (world_at_start E w) = (Ok r, w4) ->
  run_daily_research_cycle E w = try_except (step_5 E r) on_error w4.
Proof.
  intros H. rewrite run_unfold. unfold try_except, cycle_body, bind.
  now rewrite H.
Qed.


(** A run whose steps 1 to 4 raise never enters the Notifier. *)
Lemma run_quiet_after_failure (w w4 : World) (e : exn) :
  steps_1_to_4 E (world_at_start E w) = (Raise e, w4) ->
  quiet_step is_notify w (snd (run_daily_research_cycle E w)).
Proof.
  intros H.
  destruct (steps_quiet E (world_at_start E w)) as (a1 & Ht1 & Hq).
  rewrite H in Ht1. cbn [snd] in Ht1.
  rewrite run_unfold. unfold try_except, cycle_body, bind. rewrite H.
  unfold world_at_start, emit in Ht1. cbn [trace] in Ht1.
  destruct (is_exception e); unfold on_error, print, emit; cbn [snd trace].
  - exists (Print ("010"%char :: lit "--- Starting Daily Research Cycle at "
                   ++ now_repr E w ++ lit " ---")
            :: a1 ++ [Print (lit "An error occurred: " ++ exn_str e)]).
    rewrite Ht1, <- !app_assoc. split; [reflexivity|].
    simpl. now rewrite filter_app, Hq.
  - exists (Print ("010"%char :: lit "--- Starting Daily Research Cycle at "
                   ++ now_repr E w ++ lit " ---") :: a1).
    rewrite Ht1, <- !app_assoc. split; [reflexivity|]. exact Hq.
Qed.

Lemma finish_idle (r : json * json * json) :
  respects idle_step (try_except (step_5 E r) on_error).
Proof.
  apply (respects_try _ _ _ idle_trans (fun _ _ H => H));
    [apply step_5_idle | intros; unfold on_error; idle_prim].
Qed.

End AfterSteps.

(** An event selected by [sel] lies behind every prefix without one. *)
Lemma split_behind_quiet (sel : event -> bool) (x : event)
    (a b after : list event) : forall before,
  filter sel a = [] -> sel x = true ->
  a ++ b = before ++ x :: after ->
  exists c, before = a ++ c.
Proof.
  induction a as [|y a IH]; intros before Hq Hx Heq.
  - now exists before.
  - simpl in Hq. destruct (sel y) eqn:Hy; [discriminate|].
    destruct before as [|z before]; simpl in Heq.
    + injection Heq as -> _. congruence.
    + injection Heq as <- Heq.
      destruct (IH before Hq Hx Heq) as (c & ->). now exists c.
Qed.

Lemma filter_write_in (l : list event) :
  filter is_write l <> [] -> exists path content, In (FileWrite path content) l.
Proof.
  induction l as [|ev l IH]; simpl; intros H; [now destruct H|].
  destruct ev as [| |path content| |]; simpl in H;
    try (destruct (IH H) as (p & c & Hin); exists p, c; now right).
  exists path, content. now left.
Qed.

(** X10: no email without an article: whenever a run calls the Notifier,
    the article file was written before that call, in the same run, and it
    is in place with that content when the run ends. *)
Theorem no_notification_without_article (E : Env) (w : World)
    (before after : list event) (subject body : json) :
  trace (snd (run_daily_research_cycle E w))
  = trace w ++ before ++ Notify subject body :: after ->
  exists path content,
    In (FileWrite path content) before
    /\ lookup_file path (files (snd (run_daily_research_cycle E w)))
       = Some content.
Proof.
  intros Ht.
  assert (Hbefore : exists path content, In (FileWrite path content) before).
  { destruct (steps_1_to_4 E (world_at_start E w)) as [[r|e] w4] eqn:Hs.
    - destruct (steps_wrote E _ _ _ Hs) as (a1 & Ht1 & Hw1).
      destruct (steps_quiet E (world_at_start E w)) as (a1' & Ht1' & Hq).
      rewrite Hs in Ht1'. cbn [snd] in Ht1'.
      rewrite Ht1 in Ht1'. apply app_inv_head in Ht1'. subst a1'.
      destruct (finish_idle E r w4) as (a2 & Ht2 & _).
      rewrite <- (run_after_steps E w w4 r Hs), Ht1 in Ht2.
      unfold world_at_start, emit in Ht2. cbn [trace] in Ht2.
      rewrite Ht, <- !app_assoc in Ht2. apply app_inv_head in Ht2.
      change ([Print ("010"%char :: lit "--- Starting Daily Research Cycle at "
                      ++ now_repr E w ++ lit " ---")] ++ a1 ++ a2)
        with ((Print ("010"%char
                      :: lit "--- Starting Daily Research Cycle at "
                      ++ now_repr E w ++ lit " ---") :: a1) ++ a2) in Ht2.
      symmetry in Ht2.
      apply split_behind_quiet with (sel := is_notify) in Ht2
        as (c & ->); [|exact Hq|reflexivity].
      destruct (filter_write_in a1 Hw1) as (p & c' & Hin).
      exists p, c'. right. apply in_or_app. now left.
    - exfalso.
      destruct (run_quiet_after_failure E w w4 e Hs) as (ad & Ht' & Hq).
      rewrite Ht in Ht'. apply app_inv_head in Ht'. subst ad.
      rewrite filter_app in Hq. simpl in Hq.
      apply app_eq_nil in Hq as [_ Hq]. discriminate. }
  destruct Hbefore as (path & content & Hin).
  exists path, content. split; [exact Hin|].
  destruct (run_once E w) as (added & Ht' & H).
  rewrite Ht in Ht'. apply app_inv_head in Ht'. subst added.
  assert (Hw : In (FileWrite path content)
                  (filter is_write (before ++ Notify subject body :: after))).
  { apply filter_In. split; [|reflexivity]. apply in_or_app. now left. }
  destruct H as [[Hnone _] | (p & c & Hone & Hfiles)].
  - rewrite Hnone in Hw. destruct Hw.
  - rewrite Hone in Hw. destruct Hw as [Hw|[]]. injection Hw as -> ->.
    rewrite Hfiles. apply lookup_store.
Qed.

Lemma no_notification_without_article_witness :
  let E := Reference.env
             [Ok (q "{'title':'T','abstract':'A'}"); Ok (lit "OUTLINE");
              Ok (lit "ARTICLE BODY"); Ok (q "{'email_subject':'S'}")]
             None None in
  let t := trace (snd (run_daily_research_cycle E Reference.empty_world)) in
  nth 14 t (Print []) = Notify (JString (lit "S")) (JString (lit "A"))
  /\ exists path content,
       In (FileWrite path content) (firstn 14 t)
       /\ lookup_file path
            (files (snd (run_daily_research_cycle E Reference.empty_world)))
          = Some content.
Proof.
  intros E t. split; [vm_compute; reflexivity|].
  apply (no_notification_without_article E Reference.empty_world
           (firstn 14 t) (skipn 15 t)
           (JString (lit "S")) (JString (lit "A"))).
  vm_compute. reflexivity.
Defined.

(** ** The flow of one cycle *)

Section Finish.

Variable E : Env.




End Finish.



Section Flow.

Variables (E : Env) (w : World).
Variables (d1 : json) (reply1 : str) (topic : list (str * json)).
Variables (title : str) (abstract : json).
Variables (t2 m2 outline t3 m3 article : str).

Hypothesis Hd1 : directive E "directive_1_daily_topic_generation" = Ok d1.
Hypothesis Hr1 : chat_reply E (world_at_step_1 E w) d1 = Ok reply1.
Hypothesis Hx1 : _extract_json (json_loads E) reply1 = Ok (JObject topic).
Hypothesis Htitle : assoc (lit "title") topic = Some (JString title).
Hypothesis Habstract : assoc (lit "abstract") topic = Some abstract.
Hypothesis Hd2 :
  directive E "directive_2_deep_research_and_outline" = Ok (JString t2).
Hypothesis Hf2 :
  py_format E t2 [(lit "title", JString title); (lit "abstract", abstract)]
  = Ok m2.
Let w2 := world_at_step_2 E w d1 title.
Hypothesis Hr2 : chat_reply E w2 (JString m2) = Ok outline.
Hypothesis Hd3 :
  directive E "directive_3_full_article_composition" = Ok (JString t3).
Hypothesis Hf3 : py_format E t3 [(lit "outline", JString outline)] = Ok m3.
Let w3 := world_at_step_3 w2 m2.
Hypothesis Hr3 : chat_reply E w3 (JString m3) = Ok article.
Let ww := world_at_write w3 m3.
Let path := article_path E ww title.

Section WriteFails.

Variable e : exn.
Hypothesis Hfs : fs_fails E ww path = Some e.
Hypothesis Hexn : is_exception e = true.


End WriteFails.

Section WriteSucceeds.

Variables (t4 m4 report : str) (email : list (str * json)).

Hypothesis Hfs : fs_fails E ww path = None.
Hypothesis Hd4 :
  directive E "directive_4_reporting_and_summarization" = Ok (JString t4).
Hypothesis Hf4 :
  py_format E t4 [(lit "title", JString title);
                  (lit "full_article_text", JString (firstn 4000 article))]
  = Ok m4.
Let w4 := world_at_step_4 ww path article.
Hypothesis Hr4 : chat_reply E w4 (JString m4) = Ok report.
Hypothesis Hx4 : _extract_json (json_loads E) report = Ok (JObject email).



Section Delivery.

Variables shown from to subj content : str.

Let subject := email_subject_of E (JString title) email.
Let body := email_body_of abstract email.

Hypothesis Hshown : preview E body = Ok shown.
Hypothesis Hfrom :
  set_header E (lit "From") (JString (YOUR_EMAIL_ADDRESS E)) = Ok from.
Hypothesis Hto :
  set_header E (lit "To") (JString (RECIPIENT_EMAIL E)) = Ok to.
Hypothesis Hsubj : set_header E (lit "Subject") subject = Ok subj.
Hypothesis Hcontent : set_content E body = Ok content.

Let msg := {| msg_from := from; msg_to := to;
              msg_subject := subj; msg_content := content |}.
Let w5 :=
  world_at_delivery E subject body shown (emit (ChatSend (JString m4)) w4).

Hypothesis Hsmtp :
  forall e, smtp_fails E w5 msg = Some e -> is_exception e = true.


End Delivery.

End WriteSucceeds.

End Flow.




(** ** Failures of the first step *)







